(** * audio2video: the conversion pipeline

    A shallow embedding of the pipeline of the audio-to-video converter:
    [utils.py] (tool lookup, output naming), [converter.py] (duration probe,
    the ffmpeg conversion with its progress loop) and the queue side of
    [app.py] (the worker thread, the start of a batch and the handlers that
    store what the worker reports), with the dictionary form of the
    preferences of [config.py].

    Conventions of the model.
    - A path is the string pathlib prints for it; the paths handed to the
      pipeline are absolute and resolved, so [safe_path_string] is the
      identity.  The file system is the finite set of the paths for which
      [Path.exists()] answers [True].
    - Python floats are modelled by the rationals [Q]: rounding, infinities
      and NaN are outside the model.  Python integers are [Z].
    - What the operating system and the external tools do (what a subprocess
      prints, whether a call raises) is an input of the model, see
      [Converter.job_env].  The batch-wide cancellation flag is written by
      another thread; the model fixes how many reads of the flag still
      answer [False]. *)

From stdpp Require Import gmap strings list pretty sorting.
From Stdlib Require Import Ascii QArith Qround Sorted.

Close Scope Q_scope.
Local Open Scope Z_scope.

(** ** Python built-ins used by the program *)

Module Py.

(** The ASCII characters for which [str.isspace] holds: tab, line feed,
    vertical tab, form feed, carriage return, the four separators
    28 to 31, and the space. *)
Definition isspace (c : ascii) : bool :=
  let n := nat_of_ascii c in
  ((9 <=? n)%nat && (n <=? 13)%nat) || ((28 <=? n)%nat && (n <=? 32)%nat).

Fixpoint lstrip (s : string) : string :=
  match s with
  | String c s' => if isspace c then lstrip s' else s
  | EmptyString => EmptyString
  end.

Definition rstrip (s : string) : string := String.rev (lstrip (String.rev s)).

(** [s.strip()] *)
Definition strip (s : string) : string := rstrip (lstrip s).

(** [s.startswith(p)] *)
Fixpoint startswith (p s : string) : bool :=
  match p, s with
  | EmptyString, _ => true
  | String a p', String b s' => if decide (a = b) then startswith p' s' else false
  | String _ _, EmptyString => false
  end.

(** [s.partition(c)] for a one-character separator: the text before the
    first occurrence of [c] and the text after it; [None] when [c] does
    not occur, which is when [c in s] is [False].  When it occurs the pair
    is also what [s.split(c, 1)] unpacks to. *)
Fixpoint partition (c : ascii) (s : string) : option (string * string) :=
  match s with
  | EmptyString => None
  | String a s' =>
      if decide (a = c) then Some (EmptyString, s')
      else match partition c s' with
           | Some (h, t) => Some (String a h, t)
           | None => None
           end
  end.

(** The same at the last occurrence of [c] ([s.rpartition(c)]). *)
Fixpoint rpartition (c : ascii) (s : string) : option (string * string) :=
  match s with
  | EmptyString => None
  | String a s' =>
      match rpartition c s' with
      | Some (h, t) => Some (String a h, t)
      | None => if decide (a = c) then Some (EmptyString, s') else None
      end
  end.

(** [s.split(c)]: every piece, the empty ones too. *)
Fixpoint split (c : ascii) (s : string) : list string :=
  match s with
  | EmptyString => [EmptyString]
  | String a s' =>
      if decide (a = c) then EmptyString :: split c s'
      else match split c s' with
           | h :: t => String a h :: t
           | [] => [String a EmptyString]
           end
  end.

Definition digit (c : ascii) : option Z :=
  let n := nat_of_ascii c in
  if (48 <=? n)%nat && (n <=? 57)%nat then Some (Z.of_nat (n - 48)) else None.

(** Decimal digits, single underscores allowed between two digits.
    [after_digit] tells whether the previous character was a digit. *)
Fixpoint int_digits (acc : Z) (after_digit : bool) (s : string) : option Z :=
  match s with
  | EmptyString => if after_digit then Some acc else None
  | String c s' =>
      if decide (c = "_"%char) then
        if after_digit then int_digits acc false s' else None
      else
        match digit c with
        | Some d => int_digits (10 * acc + d) true s'
        | None => None
        end
  end.

(** [int(s)] on a string of ASCII characters: [None] stands for
    [ValueError].  (The limit CPython puts on the number of digits is not
    modelled.) *)
Definition int (s : string) : option Z :=
  match strip s with
  | String "+" r => int_digits 0 false r
  | String "-" r => Z.opp <$> int_digits 0 false r
  | t => int_digits 0 false t
  end.

(** The longest prefix of decimal digits and what follows it. *)
Fixpoint span_digits (s : string) : list Z * string :=
  match s with
  | EmptyString => ([], EmptyString)
  | String c s' =>
      match digit c with
      | Some d => let '(ds, r) := span_digits s' in (d :: ds, r)
      | None => ([], s)
      end
  end.

Definition digits_value (ds : list Z) : Z := fold_left (λ a d, 10 * a + d) ds 0.

Definition take_sign (s : string) : bool * string :=
  match s with
  | String "+" r => (false, r)
  | String "-" r => (true, r)
  | _ => (false, s)
  end.

Definition signed (neg : bool) (q : Q) : Q := if neg then Qopp q else q.

(** [float(s)] on a finite decimal literal, with an optional fraction and
    an optional exponent: [None] stands for [ValueError].  The spellings
    [inf], [infinity] and [nan] and the digit-group underscores, which
    Python also accepts, denote no rational and are not modelled. *)
Definition float (s : string) : option Q :=
  let '(neg, t1) := take_sign (strip s) in
  let '(ip, t2) := span_digits t1 in
  let '(fp, t3) :=
    match t2 with
    | String "." r => span_digits r
    | _ => ([], t2)
    end in
  match ip ++ fp with
  | [] => None
  | ds =>
      let mantissa :=
        Qdiv (inject_Z (digits_value ds)) (Qpower (inject_Z 10) (Z.of_nat (length fp))) in
      match t3 with
      | EmptyString => Some (signed neg mantissa)
      | String c r =>
          if bool_decide (c = "e"%char) || bool_decide (c = "E"%char) then
            let '(eneg, r1) := take_sign r in
            match span_digits r1 with
            | (d :: ed, EmptyString) =>
                let e := digits_value (d :: ed) in
                Some (signed neg (Qmult mantissa
                        (Qpower (inject_Z 10) (if eneg then - e else e))))
            | _ => None
            end
          else None
      end
  end.

(** [min(a, b)] on two floats: [b] when [b < a], else [a]. *)
Definition min (a b : Q) : Q := if Qlt_le_dec b a then b else a.

(** The truth value of a float: everything but zero. *)
Definition truthy (x : Q) : bool := negb (Qeq_bool x (inject_Z 0)).

(** [s[-n:]] for a positive [n]: the last [n] characters, all of [s] when
    it is shorter. *)
Fixpoint drop_chars (n : nat) (s : string) : string :=
  match n, s with
  | O, _ => s
  | S n', String _ s' => drop_chars n' s'
  | S _, EmptyString => EmptyString
  end.

Definition last_chars (n : nat) (s : string) : string :=
  drop_chars (String.length s - n) s.

(** The line feed. *)
Definition nl : string := String (ascii_of_nat 10) EmptyString.

(** [x // y] and [x % y] on two floats, [y] not zero: the quotient rounded
    down and what it leaves. *)
Definition floordiv (x y : Q) : Q := inject_Z (Qfloor (Qdiv x y)).

Definition fmod (x y : Q) : Q := Qminus x (Qmult y (floordiv x y)).

(** [int(x)] on a float: toward zero. *)
Definition int_of_float (x : Q) : Z := Z.quot (Qnum x) (Zpos (Qden x)).

(** [f"{n:02d}"]: the decimal digits with the sign, in two characters at
    least, zeros on the left. *)
Definition two_wide (n : Z) : string :=
  let s := pretty n in
  if (String.length s <? 2)%nat then "0" +:+ s else s.

End Py.

(** ** utils.py *)

Module Utils.

(** [folder / name] for a relative [name]. *)
Definition joinpath (folder name : string) : string := folder +:+ "/" +:+ name.

Infix "//" := joinpath (at level 40, left associativity).

(** [path.name]: the last component. *)
Definition name (path : string) : string :=
  match Py.rpartition "/" path with
  | Some (_, n) => n
  | None => path
  end.

(** [path.stem]: the last component without its last suffix; a leading or
    a trailing dot starts no suffix. *)
Definition stem (path : string) : string :=
  let n := name path in
  match Py.rpartition "." n with
  | Some (String a h, String b t) => String a h
  | _ => n
  end.

(** [path.parent] *)
Definition parent (path : string) : string :=
  match Py.rpartition "/" path with
  | Some (EmptyString, _) => "/"
  | Some (d, _) => d
  | None => "."
  end.

(** What [sys] and [shutil.which] answer on the machine. *)
Record platform := {
  win32 : bool;                      (* sys.platform == "win32" *)
  app_dir : string;                  (* get_app_dir() *)
  which_ffmpeg : option string;      (* shutil.which("ffmpeg") *)
  which_ffprobe : option string      (* shutil.which("ffprobe") *)
}.

Definition exists_ (fs : gset string) (path : string) : bool := bool_decide (path ∈ fs).

Definition get_ffmpeg_path (sys : platform) (fs : gset string) : string :=
  let bundled :=
    if win32 sys then app_dir sys // "bin" // "ffmpeg.exe"
    else app_dir sys // "bin" // "ffmpeg" in
  if exists_ fs bundled then bundled
  else match which_ffmpeg sys with
       | Some system_ffmpeg => system_ffmpeg
       | None => bundled
       end.

Definition get_ffprobe_path (sys : platform) (fs : gset string) : string :=
  let bundled :=
    if win32 sys then app_dir sys // "bin" // "ffprobe.exe"
    else app_dir sys // "bin" // "ffprobe" in
  if exists_ fs bundled then bundled
  else match which_ffprobe sys with
       | Some system_ffprobe => system_ffprobe
       | None => bundled
       end.

(** The file name tried at [counter]: [f"{base_name} ({counter}){extension}"]. *)
Definition numbered (base_name : string) (counter : nat) (extension : string) : string :=
  base_name +:+ " (" +:+ pretty counter +:+ ")" +:+ extension.

(** The path tried at [counter]. *)
Definition candidate (output_folder base_name extension : string) (counter : nat) : string :=
  output_folder // numbered base_name counter extension.

(** The [while True] loop of [get_unique_output_path], started at
    [counter]; [fuel] bounds the number of iterations, and [None] says
    that the loop has not returned within them. *)
Fixpoint probe_counter (fs : gset string) (output_folder base_name extension : string)
    (fuel counter : nat) : option string :=
  match fuel with
  | O => None
  | S fuel' =>
      let output_path := candidate output_folder base_name extension counter in
      if negb (exists_ fs output_path) then Some output_path
      else probe_counter fs output_folder base_name extension fuel' (S counter)
  end.

Definition clean_extension (extension : string) : string :=
  if negb (Py.startswith "." extension) then "." +:+ extension else extension.

Definition get_unique_output_path (fuel : nat) (fs : gset string)
    (output_folder base_name extension : string) : option string :=
  let base_name := Py.strip base_name in
  let extension := clean_extension extension in
  let output_path := output_folder // (base_name +:+ extension) in
  if negb (exists_ fs output_path) then Some output_path
  else probe_counter fs output_folder base_name extension fuel 1.

Definition format_duration (seconds : Q) : string :=
  if Qlt_le_dec seconds (inject_Z 0) then "00:00:00"
  else
    let hours := Py.int_of_float (Py.floordiv seconds (inject_Z 3600)) in
    let minutes :=
      Py.int_of_float (Py.floordiv (Py.fmod seconds (inject_Z 3600)) (inject_Z 60)) in
    let secs := Py.int_of_float (Py.fmod seconds (inject_Z 60)) in
    Py.two_wide hours +:+ ":" +:+ Py.two_wide minutes +:+ ":" +:+ Py.two_wide secs.

End Utils.

Import Utils.

(** ** converter.py *)

Module Converter.

Import Utils.

Record ConversionResult := {
  success : bool;
  output_path : option string;
  error_message : option string
}.

(** The exception classes the program tells apart; every one of them is a
    subclass of [Exception]. *)
Inductive exn_class :=
  SubprocessError | ValueError | OSError | ZeroDivisionError | TypeError | RuntimeError.

(** An exception: its class and [str(e)]. *)
Record exn := { class : exn_class; message : string }.

(** A call returns a value or raises. *)
Inductive outcome (A : Type) :=
| Returns (a : A)
| Raises (e : exn).
Arguments Returns {A} a.
Arguments Raises {A} e.

(** [subprocess.run(..., capture_output=True, text=True)] *)
Inductive run_outcome :=
| RunRaises (e : exn)
| RunReturns (returncode : Z) (stdout stderr : string).

(** One [process.stdout.readline()] of the running encoder. *)
Inductive read_event :=
| Line (s : string)      (* returns the line [s] with its line feed *)
| Stall                  (* returns "" although [poll()] is still [None] *)
| ReadRaises (e : exn).  (* raises *)

(** What the machine does during one conversion. *)
Record job_env := {
  ffprobe_run : run_outcome;        (* the ffprobe call of the duration probe *)
  ffmpeg_probe_run : run_outcome;   (* the ffmpeg call of its fallback *)
  mkdir_raises : option exn;        (* [output_path.parent.mkdir(...)] *)
  popen_raises : option exn;        (* [subprocess.Popen(...)] *)
  creates_output : bool;            (* the encoder opens its output file *)
  stdout_script : list read_event;  (* its readlines; after them "" at exit *)
  exit_code : Z;                    (* [process.wait()] *)
  stderr_text : string;             (* [process.stderr.read()] *)
  exits_on_terminate : bool;        (* [wait(timeout=5)] returns in time *)
  unlink_raises : bool              (* [output_path.unlink()] raises OSError *)
}.

(** The state the pipeline shares with the outside: the file system and
    the cancellation flag.  [cancel_in = Some n]: the next [n] reads of the
    flag answer [False], every later one [True]; [None]: never set. *)
Record world := {
  fs : gset string;
  cancel_in : option nat
}.

Definition read_flag (w : world) : bool * world :=
  match cancel_in w with
  | None => (false, w)
  | Some O => (true, w)
  | Some (S n) => (false, {| fs := fs w; cancel_in := Some n |})
  end.

(** What the engine does to the outside, in order. *)
Inductive action :=
| ARun (cmd : list string)        (* subprocess.run *)
| AMkdir (dir : string)
| APopen (cmd : list string)
| ACancelCheck (answer : bool)    (* cancel_check() *)
| AReadline
| ACallback (progress : Q)        (* progress_callback(progress) *)
| ATerminate
| AWait (timeout : option Z)      (* process.wait(timeout=...) *)
| AKill
| AUnlink (path : string)
| AReadStderr.

Definition safe_path_string (path : string) : string := path.

(** *** The duration probe *)

Definition two_digits (s : string) : option (Z * string) :=
  match s with
  | String a (String b r) =>
      x ← Py.digit a; y ← Py.digit b; Some (10 * x + y, r)
  | _ => None
  end.

Definition expect (c : ascii) (s : string) : option string :=
  match s with
  | String a r => if decide (a = c) then Some r else None
  | EmptyString => None
  end.

Fixpoint drop_prefix (p s : string) : option string :=
  match p with
  | EmptyString => Some s
  | String c p' => s' ← expect c s; drop_prefix p' s'
  end.

(** The pattern [Duration: (\d{2}):(\d{2}):(\d{2})\.(\d{2})] at the start of [s]. *)
Definition match_duration (s : string) : option (Z * Z * Z * Z) :=
  s ← drop_prefix "Duration: " s;
  '(hours, s) ← two_digits s; s ← expect ":" s;
  '(minutes, s) ← two_digits s; s ← expect ":" s;
  '(seconds, s) ← two_digits s; s ← expect "." s;
  '(centiseconds, _) ← two_digits s;
  Some (hours, minutes, seconds, centiseconds).

(** [re.search]: the leftmost match. *)
Fixpoint search_duration (s : string) : option (Z * Z * Z * Z) :=
  match match_duration s with
  | Some m => Some m
  | None =>
      match s with
      | String _ s' => search_duration s'
      | EmptyString => None
      end
  end.

Definition get_audio_duration_ffmpeg (sys : platform) (env : job_env)
    (fs : gset string) (audio_path : string) : outcome (option Q) * list action :=
  let ffmpeg_path := get_ffmpeg_path sys fs in
  if negb (exists_ fs ffmpeg_path) then (Returns None, [])
  else
    let cmd := [safe_path_string ffmpeg_path; "-i"; safe_path_string audio_path;
                "-f"; "null"; "-"] in
    match ffmpeg_probe_run env with
    | RunReturns _ _ stderr =>
        match search_duration stderr with
        | Some (hours, minutes, seconds, centiseconds) =>
            (Returns (Some (Qplus (inject_Z (hours * 3600 + minutes * 60 + seconds))
                                  (Qdiv (inject_Z centiseconds) (inject_Z 100)))),
             [ARun cmd])
        | None => (Returns None, [ARun cmd])
        end
    | RunRaises e =>
        match class e with
        | SubprocessError => (Returns None, [ARun cmd])
        | _ => (Raises e, [ARun cmd])
        end
    end.

Definition get_audio_duration (sys : platform) (env : job_env)
    (fs : gset string) (audio_path : string) : outcome (option Q) * list action :=
  let ffprobe_path := get_ffprobe_path sys fs in
  if negb (exists_ fs ffprobe_path) then get_audio_duration_ffmpeg sys env fs audio_path
  else
    let cmd := [safe_path_string ffprobe_path; "-v"; "error";
                "-show_entries"; "format=duration";
                "-of"; "default=noprint_wrappers=1:nokey=1";
                safe_path_string audio_path] in
    let fallback :=
      let '(r, t) := get_audio_duration_ffmpeg sys env fs audio_path in
      (r, ARun cmd :: t) in
    match ffprobe_run env with
    | RunReturns returncode stdout _ =>
        if bool_decide (returncode = 0) && negb (bool_decide (Py.strip stdout = "")) then
          match Py.float (Py.strip stdout) with
          | Some d => (Returns (Some d), [ARun cmd])
          | None => fallback
          end
        else fallback
    | RunRaises e =>
        match class e with
        | SubprocessError | ValueError => fallback
        | _ => (Raises e, [ARun cmd])
        end
    end.

(** *** The conversion *)

(** [a / b] on floats. *)
Definition truediv (a b : Q) : outcome Q :=
  if Qeq_bool b (inject_Z 0)
  then Raises {| class := ZeroDivisionError; message := "float division by zero" |}
  else Returns (Qdiv a b).

(** The truth value of [duration_ms]. *)
Definition known (duration_ms : option Q) : bool :=
  match duration_ms with
  | Some d => Py.truthy d
  | None => false
  end.

(** [min(current_time_ms / duration_ms, 1.0)] *)
Definition fraction (current_time_ms : Q) (duration_ms : option Q) : outcome (option Q) :=
  match duration_ms with
  | Some d =>
      match truediv current_time_ms d with
      | Returns q => Returns (Some (Py.min q (inject_Z 1)))
      | Raises e => Raises e
      end
  | None =>
      Raises {| class := TypeError;
                message := "unsupported operand type(s) for /: 'float' and 'NoneType'" |}
  end.

(** The body of the loop after the read: what one line of the progress
    stream makes the engine pass to [progress_callback], if anything. *)
Definition progress_of_line (duration_ms : option Q) (line : string) : outcome (option Q) :=
  let line := Py.strip line in
  match Py.partition "=" line with
  | Some (key, value) =>
      if bool_decide (key = "out_time_us") && known duration_ms then
        match Py.int value with
        | Some current_time_us =>
            let current_time_ms := Qdiv (inject_Z current_time_us) (inject_Z 1000) in
            fraction current_time_ms duration_ms
        | None => Returns None
        end
      else if bool_decide (key = "out_time") && known duration_ms then
        match Py.split ":" value with
        | [p0; p1; p2] =>
            match Py.int p0 with
            | Some hours =>
                match Py.int p1 with
                | Some minutes =>
                    match Py.float p2 with
                    | Some seconds =>
                        let current_time_ms :=
                          Qmult (Qplus (inject_Z (hours * 3600 + minutes * 60)) seconds)
                                (inject_Z 1000) in
                        fraction current_time_ms duration_ms
                    | None => Returns None
                    end
                | None => Returns None
                end
            | None => Returns None
            end
        | _ => Returns None
        end
      else if bool_decide (key = "progress") && bool_decide (value = "end") then
        Returns (Some (inject_Z 1))
      else Returns None
  | None => Returns None
  end.

(** How the loop ends. *)
Inductive loop_end :=
| Broke                   (* the process has exited and its output is read *)
| Cancelled               (* the cancellation branch returned *)
| LoopRaised (e : exn).

(** The cancellation branch, after [cancel_check()] answered [True]. *)
Definition cancel_cleanup (env : job_env) (output_path : string) (w : world)
    : world * list action :=
  let stop :=
    ATerminate :: AWait (Some 5) :: (if exits_on_terminate env then [] else [AKill]) in
  if exists_ (fs w) output_path then
    if unlink_raises env then (w, stop ++ [AUnlink output_path])
    else ({| fs := fs w ∖ {[output_path]}; cancel_in := cancel_in w |},
          stop ++ [AUnlink output_path])
  else (w, stop).

(** [cancel_check and cancel_check()] *)
Definition check_cancel (cancel_check : bool) (w : world) : bool * world * list action :=
  if cancel_check
  then let '(answer, w') := read_flag w in (answer, w', [ACancelCheck answer])
  else (false, w, []).

(** The [while True] loop, by recursion on what is left to read. *)
Fixpoint poll_loop (env : job_env) (output_path : string)
    (progress_callback cancel_check : bool) (duration_ms : option Q)
    (script : list read_event) (w : world) : loop_end * world * list action :=
  let '(cancelled, w, checked) := check_cancel cancel_check w in
  if cancelled then
    let '(w', t) := cancel_cleanup env output_path w in (Cancelled, w', checked ++ t)
  else
    match script with
    | [] => (Broke, w, checked ++ [AReadline])
    | ReadRaises e :: _ => (LoopRaised e, w, checked ++ [AReadline])
    | Stall :: rest =>
        let '(r, w', t) :=
          poll_loop env output_path progress_callback cancel_check duration_ms rest w in
        (r, w', checked ++ AReadline :: t)
    | Line s :: rest =>
        match progress_of_line duration_ms (s +:+ Py.nl) with
        | Raises e => (LoopRaised e, w, checked ++ [AReadline])
        | Returns progress =>
            let called :=
              if progress_callback
              then match progress with Some p => [ACallback p] | None => [] end
              else [] in
            let '(r, w', t) :=
              poll_loop env output_path progress_callback cancel_check duration_ms rest w in
            (r, w', checked ++ AReadline :: called ++ t)
        end
    end.

Definition failed (msg : string) : ConversionResult :=
  {| success := false; output_path := None; error_message := Some msg |}.

Definition ffmpeg_command (ffmpeg_path cover_image_path audio_path output_path : string)
    (resolution : Z * Z) (fps : Z) (video_bitrate audio_bitrate : string) : list string :=
  let '(width, height) := resolution in
  [safe_path_string ffmpeg_path; "-y"; "-loop"; "1";
   "-i"; safe_path_string cover_image_path;
   "-i"; safe_path_string audio_path;
   "-c:v"; "mpeg2video"; "-c:a"; "mp2";
   "-b:v"; video_bitrate; "-b:a"; audio_bitrate;
   "-vf"; "scale=" +:+ pretty width +:+ ":" +:+ pretty height
          +:+ ":force_original_aspect_ratio=decrease,pad=" +:+ pretty width +:+ ":"
          +:+ pretty height +:+ ":(ow-iw)/2:(oh-ih)/2,format=yuv420p";
   "-r"; pretty fps; "-shortest"; "-progress"; "pipe:1"; "-nostats";
   safe_path_string output_path].

(** The file system once the encoder runs. *)
Definition launched (env : job_env) (output_path : string) (w : world) : world :=
  if creates_output env
  then {| fs := fs w ∪ {[output_path]}; cancel_in := cancel_in w |}
  else w.

(** The body of the [try]. *)
Definition try_body (env : job_env) (cmd : list string) (output_path : string)
    (progress_callback cancel_check : bool) (duration_ms : option Q) (w : world)
    : outcome ConversionResult * world * list action :=
  match mkdir_raises env with
  | Some e => (Raises e, w, [AMkdir (parent output_path)])
  | None =>
      match popen_raises env with
      | Some e => (Raises e, w, [AMkdir (parent output_path); APopen cmd])
      | None =>
          let w0 := launched env output_path w in
          let started := [AMkdir (parent output_path); APopen cmd] in
          match poll_loop env output_path progress_callback cancel_check duration_ms
                  (stdout_script env) w0 with
          | (Cancelled, w', t) =>
              (Returns (failed "Conversão cancelada pelo usuário"), w', started ++ t)
          | (LoopRaised e, w', t) => (Raises e, w', started ++ t)
          | (Broke, w', t) =>
              let return_code := exit_code env in
              let stderr_output := stderr_text env in
              let t' := started ++ t ++ [AWait None; AReadStderr] in
              if negb (bool_decide (return_code = 0)) then
                (Returns (failed ("FFmpeg retornou código de erro " +:+ pretty return_code
                                  +:+ ":" +:+ Py.nl +:+ Py.last_chars 500 stderr_output)),
                 w', t')
              else if negb (exists_ (fs w') output_path) then
                (Returns (failed "O arquivo de saída não foi criado"), w', t')
              else
                (Returns {| success := true; output_path := Some output_path;
                            error_message := None |}, w', t')
          end
      end
  end.

(** The two [except] clauses. *)
Definition handler (e : exn) : ConversionResult :=
  match class e with
  | SubprocessError => failed ("Erro ao executar FFmpeg: " +:+ message e)
  | _ => failed ("Erro inesperado: " +:+ message e)
  end.

Definition duration_ms_of (duration : option Q) : option Q :=
  match duration with
  | Some d => if Py.truthy d then Some (Qmult d (inject_Z 1000)) else None
  | None => None
  end.

Definition convert_audio_to_video (sys : platform) (env : job_env)
    (audio_path cover_image_path output_path : string)
    (progress_callback cancel_check : bool)
    (resolution : Z * Z) (fps : Z) (video_bitrate audio_bitrate : string)
    (w : world) : outcome ConversionResult * world * list action :=
  let ffmpeg_path := get_ffmpeg_path sys (fs w) in
  if negb (exists_ (fs w) ffmpeg_path) then
    (Returns (failed ("FFmpeg não encontrado em: " +:+ ffmpeg_path)), w, [])
  else if negb (exists_ (fs w) audio_path) then
    (Returns (failed ("Arquivo de áudio não encontrado: " +:+ audio_path)), w, [])
  else if negb (exists_ (fs w) cover_image_path) then
    (Returns (failed ("Imagem de capa não encontrada: " +:+ cover_image_path)), w, [])
  else
    match get_audio_duration sys env (fs w) audio_path with
    | (Raises e, probed) => (Raises e, w, probed)
    | (Returns duration, probed) =>
        let duration_ms := duration_ms_of duration in
        let cmd := ffmpeg_command ffmpeg_path cover_image_path audio_path output_path
                     resolution fps video_bitrate audio_bitrate in
        match try_body env cmd output_path progress_callback cancel_check duration_ms w with
        | (Returns r, w', t) => (Returns r, w', probed ++ t)
        | (Raises e, w', t) => (Returns (handler e), w', probed ++ t)
        end
    end.

(** The defaults of the keyword arguments. *)
Definition default_resolution : Z * Z := (1280, 720).
Definition default_fps : Z := 30.
Definition default_video_bitrate : string := "4000k".
Definition default_audio_bitrate : string := "192k".

End Converter.

Import Converter.

(** ** app.py: the worker, the start of a batch, the handlers *)

Module App.

Import Utils Converter.

Definition STATUS_QUEUED : string := "Na fila".
Definition STATUS_CONVERTING : string := "Convertendo".
Definition STATUS_COMPLETED : string := "Concluído".
Definition STATUS_ERROR : string := "Erro".
Definition STATUS_CANCELLED : string := "Cancelado".

Record AudioItem := {
  file_path : string;
  status : string;
  progress : Q;
  output_path : option string;
  error_message : option string
}.

(** The signals of [ConversionWorker]. *)
Inductive signal :=
| progress_updated (row : nat) (progress : Q)
| status_updated (row : nat) (status : string)
| conversion_completed (row : nat) (success : bool) (output_path error_message : string)
| all_completed.

(** What the worker thread does, in order: the signals it emits and, for
    the row it converts, what the engine does. *)
Inductive event :=
| Emit (s : signal)
| Engine (row : nat) (a : action).

(** The entries of [self.items]. *)
Definition work_item : Type := nat * string * string * string.

(** The engine running for [row]: [progress_callback] emits
    [progress_updated], [cancel_check] reads [self.cancelled]. *)
Definition relay (row : nat) (a : action) : event :=
  match a with
  | ACallback p => Emit (progress_updated row p)
  | _ => Engine row a
  end.

(** [result.error_message or "Erro desconhecido"] *)
Definition message_or_unknown (m : option string) : string :=
  match m with
  | Some EmptyString | None => "Erro desconhecido"
  | Some msg => msg
  end.

(** The three ways a converted row is reported. *)
Definition finished (row : nat) (cancelled : bool) (result : ConversionResult)
    : list event :=
  if cancelled then
    [Emit (status_updated row STATUS_CANCELLED);
     Emit (conversion_completed row false "" "Conversão cancelada")]
  else if success result then
    [Emit (status_updated row STATUS_COMPLETED);
     Emit (conversion_completed row true
             (default "None" (Converter.output_path result)) "")]
  else
    [Emit (status_updated row STATUS_ERROR);
     Emit (conversion_completed row false ""
             (message_or_unknown (Converter.error_message result)))].

(** One turn of the [for] loop of [ConversionWorker.run].  [oracle row] is
    what the machine does while [row] is converted.  The boolean tells
    whether the thread is still running: an exception that leaves
    [convert_audio_to_video] ends it where it stands. *)
Definition run_item (sys : platform) (oracle : nat → job_env) (item : work_item)
    (w : world) : world * list event * bool :=
  let '(row, audio_path, cover_path, output_path) := item in
  let '(cancelled, w) := read_flag w in
  if cancelled then (w, [Emit (status_updated row STATUS_CANCELLED)], true)
  else
    let converting := Emit (status_updated row STATUS_CONVERTING) in
    match convert_audio_to_video sys (oracle row) audio_path cover_path output_path
            true true default_resolution default_fps
            default_video_bitrate default_audio_bitrate w with
    | (Raises e, w', t) => (w', converting :: (relay row <$> t), false)
    | (Returns result, w', t) =>
        let '(cancelled, w') := read_flag w' in
        (w', converting :: (relay row <$> t) ++ finished row cancelled result, true)
    end.

Fixpoint run_items (sys : platform) (oracle : nat → job_env) (items : list work_item)
    (w : world) : world * list event * bool :=
  match items with
  | [] => (w, [], true)
  | item :: rest =>
      let '(w1, evs1, alive) := run_item sys oracle item w in
      if alive then
        let '(w2, evs2, alive') := run_items sys oracle rest w1 in
        (w2, evs1 ++ evs2, alive')
      else (w1, evs1, false)
  end.

(** [ConversionWorker.run] *)
Definition run (sys : platform) (oracle : nat → job_env) (items : list work_item)
    (w : world) : world * list event :=
  let '(w', evs, alive) := run_items sys oracle items w in
  (w', if alive then evs ++ [Emit all_completed] else evs).

(** The result of [MainWindow.start_conversion]. *)
Inductive start_result :=
| NotStarted (dialog : string)   (* a message box; no worker is created *)
| Started (items_to_convert : list work_item) (audio_items : list AudioItem).

Definition restartable (item : AudioItem) : bool :=
  bool_decide (status item = STATUS_QUEUED) || bool_decide (status item = STATUS_ERROR)
  || bool_decide (status item = STATUS_CANCELLED).

Definition reset (item : AudioItem) : AudioItem :=
  {| file_path := file_path item; status := STATUS_QUEUED; progress := inject_Z 0;
     output_path := None; error_message := None |}.

(** The loop "Prepare conversion items" over [enumerate(self.audio_items)],
    from index [row] on.  [fuel] is handed to every call of
    [get_unique_output_path]; [None] says that one of them ran out of it. *)
Fixpoint prepare (fuel : nat) (fs : gset string) (cover_image_path output_folder : string)
    (row : nat) (audio_items : list AudioItem)
    : option (list work_item * list AudioItem) :=
  match audio_items with
  | [] => Some ([], [])
  | item :: rest =>
      if restartable item then
        output_path ← get_unique_output_path fuel fs output_folder (stem (file_path item)) ".mpg";
        '(items_to_convert, rest') ← prepare fuel fs cover_image_path output_folder (S row) rest;
        Some ((row, file_path item, cover_image_path, output_path) :: items_to_convert,
              reset item :: rest')
      else
        '(items_to_convert, rest') ← prepare fuel fs cover_image_path output_folder (S row) rest;
        Some (items_to_convert, item :: rest')
  end.

(** [folder_ok]: [ensure_output_folder] does not raise. *)
Definition start_conversion (fuel : nat) (fs : gset string) (folder_ok : bool)
    (cover_image_path : option string) (output_folder : string)
    (audio_items : list AudioItem) : option start_result :=
  match cover_image_path with
  | None => Some (NotStarted "Imagem de capa necessária")
  | Some cover =>
      if bool_decide (length audio_items = 0%nat) then Some (NotStarted "Sem arquivos")
      else if negb folder_ok then Some (NotStarted "Erro")
      else
        '(items_to_convert, audio_items') ← prepare fuel fs cover output_folder 0 audio_items;
        match items_to_convert with
        | [] => Some (NotStarted "Nada a converter")
        | _ => Some (Started items_to_convert audio_items')
        end
  end.

(** The handlers of [MainWindow], on the list of items. *)
Definition on_progress_updated (audio_items : list AudioItem) (row : nat) (p : Q)
    : list AudioItem :=
  match audio_items !! row with
  | Some item =>
      <[row := {| file_path := file_path item; status := status item; progress := p;
                  output_path := output_path item;
                  error_message := error_message item |}]> audio_items
  | None => audio_items
  end.

Definition on_status_updated (audio_items : list AudioItem) (row : nat) (st : string)
    : list AudioItem :=
  match audio_items !! row with
  | Some item =>
      <[row := {| file_path := file_path item; status := st; progress := progress item;
                  output_path := output_path item;
                  error_message := error_message item |}]> audio_items
  | None => audio_items
  end.

Definition on_conversion_completed (audio_items : list AudioItem) (row : nat)
    (ok : bool) (out err : string) : list AudioItem :=
  match audio_items !! row with
  | Some item =>
      if ok then
        <[row := {| file_path := file_path item; status := status item;
                    progress := progress item; output_path := Some out;
                    error_message := error_message item |}]> audio_items
      else
        <[row := {| file_path := file_path item; status := status item;
                    progress := progress item; output_path := output_path item;
                    error_message := Some err |}]> audio_items
  | None => audio_items
  end.

(** The slot a queued signal lands in. *)
Definition deliver (audio_items : list AudioItem) (e : event) : list AudioItem :=
  match e with
  | Emit (progress_updated row p) => on_progress_updated audio_items row p
  | Emit (status_updated row st) => on_status_updated audio_items row st
  | Emit (conversion_completed row ok out err) =>
      on_conversion_completed audio_items row ok out err
  | Emit all_completed => audio_items
  | Engine _ _ => audio_items
  end.

(** [del l[row]]: [None] stands for [IndexError]. *)
Definition del {A} (row : nat) (l : list A) : option (list A) :=
  if decide (row < length l)%nat then Some (delete row l) else None.

(** [sorted(set(rows), reverse=True)]: the distinct rows, the largest
    first. *)
Definition sorted_reverse (rows : list nat) : list nat :=
  reverse (merge_sort le (remove_dups rows)).

(** [MainWindow.remove_selected], on the list of items: [selected] holds
    the row of every selected cell.  While a batch is converted the list
    is left as it is, behind a warning. *)
Definition remove_selected (is_converting : bool) (selected : list nat)
    (audio_items : list AudioItem) : option (list AudioItem) :=
  if is_converting then Some audio_items
  else foldl (λ items row, items ← items; del row items) (Some audio_items)
             (sorted_reverse selected).

End App.

Import App.

(** ** config.py: the preferences and their dictionary *)

Module Config.

(** What [json.load] can hand over. *)
#[warnings="-register-all"] Inductive json :=
| JNull
| JBool (b : bool)
| JInt (n : Z)
| JFloat (x : Q)
| JStr (s : string)
| JList (l : list json)
| JDict (d : list (string * json)).

(** The dataclass: the types of its fields are annotations that nothing
    checks, so a field holds whatever it was given. *)
Record AppConfig := {
  last_output_folder : json;
  last_cover_image : json;
  open_folder_on_finish : json;
  window_width : json;
  window_height : json;
  logs_panel_visible : json
}.

(** [AppConfig()], with the defaults of the class. *)
Definition new : AppConfig :=
  {| last_output_folder := JNull; last_cover_image := JNull;
     open_folder_on_finish := JBool false;
     window_width := JInt 900; window_height := JInt 700;
     logs_panel_visible := JBool false |}.

(** [data.get(key, default)] *)
Definition get (data : gmap string json) (key : string) (default : json) : json :=
  match data !! key with
  | Some v => v
  | None => default
  end.

Definition to_dict (self : AppConfig) : gmap string json :=
  <["last_output_folder" := last_output_folder self]>
  (<["last_cover_image" := last_cover_image self]>
  (<["open_folder_on_finish" := open_folder_on_finish self]>
  (<["window_width" := window_width self]>
  (<["window_height" := window_height self]>
  (<["logs_panel_visible" := logs_panel_visible self]> ∅))))).

Definition from_dict (data : gmap string json) : AppConfig :=
  {| last_output_folder := get data "last_output_folder" JNull;
     last_cover_image := get data "last_cover_image" JNull;
     open_folder_on_finish := get data "open_folder_on_finish" (JBool false);
     window_width := get data "window_width" (JInt 900);
     window_height := get data "window_height" (JInt 700);
     logs_panel_visible := get data "logs_panel_visible" (JBool false) |}.

End Config.

(** ** Vocabulary of the statements *)

Module Trace.
(** The values passed to [progress_callback], in order. *)
Definition callbacks (t : list action) : list Q :=
  omap (λ a, match a with ACallback p => Some p | _ => None end) t.

(** What one read makes the engine report. *)
Definition line_values (duration_ms : option Q) (ev : read_event) : list Q :=
  match ev with
  | Line s =>
      match progress_of_line duration_ms (s +:+ Py.nl) with
      | Returns (Some p) => [p]
      | _ => []
      end
  | _ => []
  end.

(** Every [readline] comes right after a [cancel_check()] that answered
    [False]. *)
Inductive polled : list action → Prop :=
| polled_nil : polled []
| polled_read t : polled t → polled (ACancelCheck false :: AReadline :: t)
| polled_other a t : a ≠ AReadline → polled t → polled (a :: t).

(** What a run of the loop leaves behind: [n] reads went past the read,
    the values reported are those of these reads, and how it ended. *)
Definition loop_post (env : job_env) (output_path : string)
    (progress_callback cancel_check : bool) (duration_ms : option Q)
    (script : list read_event) (w : world)
    (e : loop_end) (w' : world) (t : list action) : Prop :=
  ∃ n, (n ≤ length script)%nat
    ∧ callbacks t =
        (if progress_callback
         then concat (line_values duration_ms <$> take n script) else [])
    ∧ (cancel_check = true → polled t)
    ∧ match e with
      | Broke =>
          n = length script ∧ fs w' = fs w
          ∧ (ACancelCheck true ∉ t) ∧ (AWait None ∉ t)
      | LoopRaised ex =>
          fs w' = fs w ∧ (ACancelCheck true ∉ t) ∧ (AWait None ∉ t)
          ∧ script !! n = Some (ReadRaises ex)
      | Cancelled =>
          cancel_check = true ∧ (AWait None ∉ t)
          ∧ ∃ pre w1, fs w1 = fs w
              ∧ t = pre ++ ACancelCheck true :: (cancel_cleanup env output_path w1).2
              ∧ w' = (cancel_cleanup env output_path w1).1
              ∧ (ACancelCheck true ∉ pre)
      end.

(** The result after a natural exit of the encoder. *)
Definition exit_result (env : job_env) (output_path : string) (w : world)
    : ConversionResult :=
  if bool_decide (exit_code env = 0) then
    if exists_ (fs w) output_path then
      {| success := true; Converter.output_path := Some output_path;
         Converter.error_message := None |}
    else failed "O arquivo de saída não foi criado"
  else
    failed ("FFmpeg retornou código de erro " +:+ pretty (exit_code env) +:+ ":"
            +:+ Py.nl +:+ Py.last_chars 500 (stderr_text env)).

(** The result and the end of the trace for each end of the loop. *)
Definition loop_result (env : job_env) (output_path : string) (e : loop_end) (w : world)
    : ConversionResult * list action :=
  match e with
  | Broke => (exit_result env output_path w, [AWait None; AReadStderr])
  | Cancelled => (failed "Conversão cancelada pelo usuário", [])
  | LoopRaised ex => (handler ex, [])
  end.

(** The duration probe raises nothing that its [except] clauses let through. *)
Definition probe_caught (env : job_env) : bool :=
  match ffprobe_run env with
  | RunRaises e =>
      match class e with SubprocessError | ValueError => true | _ => false end
  | RunReturns _ _ _ => true
  end
  && match ffmpeg_probe_run env with
     | RunRaises e => match class e with SubprocessError => true | _ => false end
     | RunReturns _ _ _ => true
     end.

(** What the worker reported for [row], in order: the statuses, the
    fractions, the completions. *)
Definition statuses (row : nat) (evs : list event) : list string :=
  omap (λ e, match e with
             | Emit (status_updated r st) => if decide (r = row) then Some st else None
             | _ => None
             end) evs.

Definition fractions (row : nat) (evs : list event) : list Q :=
  omap (λ e, match e with
             | Emit (progress_updated r p) => if decide (r = row) then Some p else None
             | _ => None
             end) evs.

Definition completions (row : nat) (evs : list event) : list (bool * string * string) :=
  omap (λ e, match e with
             | Emit (conversion_completed r ok out err) =>
                 if decide (r = row) then Some (ok, out, err) else None
             | _ => None
             end) evs.

(** What the engine did for [row]. *)
Definition engine_actions (row : nat) (evs : list event) : list action :=
  omap (λ e, match e with
             | Engine r a => if decide (r = row) then Some a else None
             | _ => None
             end) evs.

(** What the completion event of a converted row carries. *)
Definition carried (cancelled : bool) (result : ConversionResult) : bool * string * string :=
  if cancelled then (false, "", "Conversão cancelada")
  else if success result then (true, default "None" (Converter.output_path result), "")
  else (false, "", message_or_unknown (Converter.error_message result)).

(** The only event of a job that is skipped. *)
Definition skipped (item : work_item) : event :=
  Emit (status_updated item.1.1.1 STATUS_CANCELLED).

(** What a line of the progress stream says, the duration left aside: an
    elapsed time in milliseconds, or the end. *)
Inductive update :=
| Elapsed (ms : Q)
| Ended.

Definition update_of_line (line : string) : option update :=
  match Py.partition "=" (Py.strip line) with
  | Some (key, value) =>
      if bool_decide (key = "out_time_us") then
        (λ us, Elapsed (Qdiv (inject_Z us) (inject_Z 1000))) <$> Py.int value
      else if bool_decide (key = "out_time") then
        match Py.split ":" value with
        | [p0; p1; p2] =>
            hours ← Py.int p0; minutes ← Py.int p1; seconds ← Py.float p2;
            Some (Elapsed (Qmult (Qplus (inject_Z (hours * 3600 + minutes * 60)) seconds)
                                 (inject_Z 1000)))
        | _ => None
        end
      else if bool_decide (key = "progress") && bool_decide (value = "end") then Some Ended
      else None
  | None => None
  end.

Definition update_of_event (ev : read_event) : option update :=
  match ev with
  | Line s => update_of_line (s +:+ Py.nl)
  | _ => None
  end.

(** The fraction reported for an update when the duration is [d] ms. *)
Definition reported (d : Q) (u : update) : Q :=
  match u with
  | Elapsed ms => Py.min (Qdiv ms d) (inject_Z 1)
  | Ended => inject_Z 1
  end.

(** What the engine passes to the callback for an update. *)
Definition report (duration_ms : option Q) (u : update) : option Q :=
  match u with
  | Elapsed ms =>
      match duration_ms with
      | Some d => if Py.truthy d then Some (reported d u) else None
      | None => None
      end
  | Ended => Some (inject_Z 1)
  end.

(** A stream whose elapsed times start at [prev] or later and never go
    back, and in which nothing but the end follows the end. *)
Fixpoint orderly (prev : Q) (us : list update) : Prop :=
  match us with
  | [] => True
  | Elapsed ms :: rest => Qle prev ms ∧ orderly ms rest
  | Ended :: rest => Forall (λ u, u = Ended) rest
  end.

End Trace.
Import Trace.

(** ** Further vocabulary *)

Module Watch.

(** A trace without the calls of the progress callback. *)
Definition silent (t : list action) : list action :=
  omap (λ a, match a with ACallback _ => None | _ => Some a end) t.

(** The same machine with other answers of the duration probe. *)
Definition with_probe (env : job_env) (ffprobe ffmpeg : run_outcome) : job_env :=
  {| ffprobe_run := ffprobe; ffmpeg_probe_run := ffmpeg;
     mkdir_raises := mkdir_raises env; popen_raises := popen_raises env;
     creates_output := creates_output env; stdout_script := stdout_script env;
     exit_code := exit_code env; stderr_text := stderr_text env;
     exits_on_terminate := exits_on_terminate env; unlink_raises := unlink_raises env |}.

(** The row an event of the worker is about. *)
Definition row_of (e : event) : option nat :=
  match e with
  | Emit (progress_updated row _) | Emit (status_updated row _)
  | Emit (conversion_completed row _ _ _) | Engine row _ => Some row
  | Emit all_completed => None
  end.

(** The events of one job of a batch, in order: the job is skipped with a
    Cancelled status, or it is converted, with what the engine does for
    it, and then reported. *)
Definition job_events (item : work_item) (evs : list event) : Prop :=
  evs = [skipped item]
  ∨ ∃ t cancelled result,
      evs = Emit (status_updated item.1.1.1 STATUS_CONVERTING)
            :: (relay item.1.1.1 <$> t) ++ finished item.1.1.1 cancelled result.

(** A list without the elements at the positions [rows], the head of the
    list being at position [i]. *)
Fixpoint without {A} (rows : list nat) (i : nat) (l : list A) : list A :=
  match l with
  | [] => []
  | x :: l' =>
      if decide (i ∈ rows) then without rows (S i) l' else x :: without rows (S i) l'
  end.

(** The statuses in which the worker leaves a row. *)
Definition terminal (st : string) : Prop :=
  st = STATUS_COMPLETED ∨ st = STATUS_ERROR ∨ st = STATUS_CANCELLED.

End Watch.
Import Watch.

(** ** Concrete machines and disks *)

Module Scenario.

(** A Linux machine with the tools on the search path, and a disk with an
    audio file and a cover. *)
Definition linux : platform :=
  {| win32 := false; app_dir := "/app";
     which_ffmpeg := Some "/usr/bin/ffmpeg"; which_ffprobe := Some "/usr/bin/ffprobe" |}.

Definition disk : gset string :=
  {[ "/usr/bin/ffmpeg"; "/usr/bin/ffprobe"; "/music/a.mp3"; "/music/b.mp3";
     "/music/cover.png" ]}.

(** An encoder that reports half of a ten-second input, then the end. *)
Definition encoder : job_env :=
  {| ffprobe_run := RunReturns 0 ("10.000000" +:+ Py.nl) "";
     ffmpeg_probe_run := RunReturns 0 "" "";
     mkdir_raises := None; popen_raises := None; creates_output := true;
     stdout_script :=
       [Line "frame=150"; Line "out_time_us=5000000"; Line "progress=continue";
        Line "out_time_us=10000000"; Line "progress=end"];
     exit_code := 0; stderr_text := "";
     exits_on_terminate := true; unlink_raises := false |}.

Definition quiet : world := {| fs := disk; cancel_in := None |}.

(** The same disk, with the flag set after two more reads. *)
Definition soon_cancelled : world := {| fs := disk; cancel_in := Some 2%nat |}.

(** The same encoder on an input whose probed duration is 0.0. *)
Definition zero_probe : job_env :=
  {| ffprobe_run := RunReturns 0 ("0.000000" +:+ Py.nl) "";
     ffmpeg_probe_run := RunReturns 0 "" "";
     mkdir_raises := None; popen_raises := None; creates_output := true;
     stdout_script :=
       [Line "out_time_us=5000000"; Line "out_time=00:00:05.000000";
        Line "progress=continue"; Line "progress=end"];
     exit_code := 0; stderr_text := "";
     exits_on_terminate := true; unlink_raises := false |}.

(** Two jobs of one batch. *)
Definition batch : list work_item :=
  [(0%nat, "/music/a.mp3", "/music/cover.png", "/out/a.mpg");
   (1%nat, "/music/b.mp3", "/music/cover.png", "/out/b.mpg")].

(** The flag is set while the first job is read: the start of the job and
    two polls still answer [False]. *)
Definition cancelled_midway : world := {| fs := disk; cancel_in := Some 3%nat |}.

(** The flag is set after the last poll of the first job, before its
    encoder has exited: the start of the job and its six polls answer
    [False]. *)
Definition cancelled_late : world := {| fs := disk; cancel_in := Some 7%nat |}.

(** An encoder whose clock steps back below zero. *)
Definition rewinding : job_env :=
  {| ffprobe_run := RunReturns 0 ("10.000000" +:+ Py.nl) "";
     ffmpeg_probe_run := RunReturns 0 "" "";
     mkdir_raises := None; popen_raises := None; creates_output := true;
     stdout_script := [Line "out_time_us=5000000"; Line "out_time_us=-1000000"];
     exit_code := 0; stderr_text := "";
     exits_on_terminate := true; unlink_raises := false |}.

(** Two queued files with the same stem, and an empty output folder. *)
Definition queued (path : string) : AudioItem :=
  {| file_path := path; status := STATUS_QUEUED; progress := inject_Z 0;
     App.output_path := None; App.error_message := None |}.

Definition same_stem : list AudioItem :=
  [queued "/music/a/track.mp3"; queued "/music/b/track.mp3"].

End Scenario.

(** * Properties *)

(** * Output naming *)

Section Naming.

Lemma string_app_length (s t : string) :
  String.length (s +:+ t) = (String.length s + String.length t)%nat.
Proof. induction s as [|a s IH]; simpl; [done | by rewrite IH]. Qed.

Lemma string_app_inj_r (t s1 s2 : string) : s1 +:+ t = s2 +:+ t → s1 = s2.
Proof.
  revert s2. induction s1 as [|a s1 IH]; intros [|b s2] H; simpl in *.
  - done.
  - apply (f_equal String.length) in H.
    rewrite !string_app_length in H. simpl in H. lia.
  - apply (f_equal String.length) in H.
    rewrite !string_app_length in H. simpl in H. lia.
  - change (String a (s1 +:+ t) = String b (s2 +:+ t)) in H.
    injection H as -> H. f_equal. by apply IH.
Qed.

Lemma numbered_inj (base_name extension : string) (j k : nat) :
  numbered base_name j extension = numbered base_name k extension → j = k.
Proof.
  unfold numbered. intros H.
  apply (inj (String.app base_name)) in H.
  apply (inj (String.app " (")) in H.
  apply string_app_inj_r in H.
  by apply (inj pretty) in H.
Qed.

Lemma joinpath_inj (folder a b : string) : folder // a = folder // b → a = b.
Proof.
  unfold joinpath. intros H.
  apply (inj (String.app folder)) in H.
  by apply (inj (String.app "/")) in H.
Qed.

Context (fs : gset string) (output_folder base_name extension : string).

Local Abbreviation candidate := (Utils.candidate output_folder base_name extension).

Lemma candidate_inj j k : candidate j = candidate k → j = k.
Proof. unfold Utils.candidate. intros H. eapply numbered_inj, joinpath_inj, H. Qed.

(** No more candidates than files can all be taken. *)
Lemma taken_bound (c n : nat) :
  (∀ j, (c ≤ j < c + n)%nat → candidate j ∈ fs) → (n ≤ size fs)%nat.
Proof.
  intros Hall.
  set (l := candidate <$> seq c n).
  assert (NoDup l) as Hnd.
  { apply NoDup_fmap_2_strong; [|apply NoDup_seq].
    intros ???? H. by apply candidate_inj. }
  assert (list_to_set l ⊆ fs) as Hsub.
  { intros p Hp. apply elem_of_list_to_set in Hp.
    apply list_elem_of_fmap in Hp as (j & -> & Hj).
    apply elem_of_seq in Hj. apply Hall. lia. }
  apply subseteq_size in Hsub.
  rewrite size_list_to_set in Hsub by done.
  unfold l in Hsub. by rewrite length_fmap, length_seq in Hsub.
Qed.

Lemma probe_counter_None (fuel c : nat) :
  probe_counter fs output_folder base_name extension fuel c = None →
  ∀ j, (c ≤ j < c + fuel)%nat → candidate j ∈ fs.
Proof.
  revert c. induction fuel as [|fuel IH]; intros c H j Hj; [lia|].
  simpl in H. unfold exists_ in H.
  destruct (bool_decide_reflect (candidate c ∈ fs))
    as [Hin|Hout]; simpl in H; [|done].
  destruct (decide (j = c)) as [->|Hne]; [done|].
  apply (IH (S c)); [done | lia].
Qed.

Lemma probe_counter_Some (fuel c : nat) (p : string) :
  probe_counter fs output_folder base_name extension fuel c = Some p →
  ∃ k, (c ≤ k)%nat ∧ p = candidate k ∧ (p ∉ fs) ∧
       (∀ j, (c ≤ j < k)%nat → candidate j ∈ fs).
Proof.
  revert c. induction fuel as [|fuel IH]; intros c H; [done|].
  simpl in H. unfold exists_ in H.
  destruct (bool_decide_reflect (candidate c ∈ fs))
    as [Hin|Hout]; simpl in H.
  - apply IH in H as (k & Hk & -> & Hfree & Hbelow).
    exists k. split_and!; [lia | done | done |].
    intros j Hj. destruct (decide (j = c)) as [->|]; [done | apply Hbelow; lia].
  - injection H as <-. exists c. split_and!; [lia | done | done | intros; lia].
Qed.

End Naming.



(** * The engine *)

Ltac notin :=
  repeat match goal with
  | |- _ ∉ _ => assumption
  | |- _ ∉ [] => apply not_elem_of_nil
  | |- _ ∉ _ :: _ => apply not_elem_of_cons; split; [discriminate|]
  | |- _ ∉ _ ++ _ => apply not_elem_of_app; split
  end.

Section Engine.

Lemma read_flag_fs w b w' : read_flag w = (b, w') → fs w' = fs w.
Proof.
  unfold read_flag. destruct (cancel_in w) as [[|n]|]; intros [= <- <-]; done.
Qed.

Lemma check_cancel_fs cc w b w' t : check_cancel cc w = (b, w', t) → fs w' = fs w.
Proof.
  unfold check_cancel. destruct cc.
  - destruct (read_flag w) as [a w1] eqn:H. intros [= <- <- <-].
    by eapply read_flag_fs.
  - by intros [= <- <- <-].
Qed.

Lemma check_cancel_trace cc w b w' t :
  check_cancel cc w = (b, w', t) →
  (cc = true ∧ t = [ACancelCheck b]) ∨ (cc = false ∧ b = false ∧ t = []).
Proof.
  unfold check_cancel. destruct cc.
  - destruct (read_flag w) as [a w1]. intros [= <- <- <-]. by left.
  - intros [= <- <- <-]. by right.
Qed.

Lemma truediv_returns a b : Py.truthy b = true → truediv a b = Returns (Qdiv a b).
Proof.
  unfold Py.truthy, truediv. intros H. apply negb_true_iff in H. by rewrite H.
Qed.

Lemma fraction_known ms dms :
  known dms = true →
  ∃ d, dms = Some d ∧ Py.truthy d = true ∧
       fraction ms dms = Returns (Some (Py.min (Qdiv ms d) (inject_Z 1))).
Proof.
  destruct dms as [d|]; simpl; [|done]. intros H. exists d.
  split_and!; [done..|]. unfold fraction. by rewrite truediv_returns.
Qed.

(** One line never ends the job: the division is guarded by the test on
    [duration_ms], and a [ValueError] of the conversions is swallowed. *)
Lemma progress_of_line_returns dms line : ∃ v, progress_of_line dms line = Returns v.
Proof.
  unfold progress_of_line.
  destruct (Py.partition "=" (Py.strip line)) as [[key value]|]; [|by eexists].
  destruct (bool_decide (key = "out_time_us") && known dms) eqn:H1.
  { apply andb_true_iff in H1 as [_ Hk].
    destruct (Py.int value); [|by eexists].
    destruct (fraction_known (Qdiv (inject_Z z) (inject_Z 1000)) _ Hk) as (d & _ & _ & ->).
    by eexists. }
  destruct (bool_decide (key = "out_time") && known dms) eqn:H2.
  { apply andb_true_iff in H2 as [_ Hk].
    destruct (Py.split ":" value) as [|p0 [|p1 [|p2 [|]]]]; try by eexists.
    destruct (Py.int p0) as [hours|]; [|by eexists].
    destruct (Py.int p1) as [minutes|]; [|by eexists].
    destruct (Py.float p2) as [seconds|]; [|by eexists].
    match goal with |- context [fraction ?ms dms] =>
      destruct (fraction_known ms _ Hk) as (d & _ & _ & ->) end.
    by eexists. }
  destruct (bool_decide (key = "progress") && bool_decide (value = "end")); by eexists.
Qed.


Lemma callbacks_round b called t :
  callbacks (ACancelCheck b :: AReadline :: called ++ t) = callbacks called ++ callbacks t.
Proof. unfold callbacks. simpl. apply omap_app. Qed.

Lemma callbacks_round' called t :
  callbacks (AReadline :: called ++ t) = callbacks called ++ callbacks t.
Proof. unfold callbacks. simpl. apply omap_app. Qed.

Lemma callbacks_called (pcb : bool) (v : option Q) :
  callbacks (if pcb then match v with Some p => [ACallback p] | None => [] end else [])
  = if pcb then match v with Some p => [p] | None => [] end else [].
Proof. by destruct pcb, v. Qed.

Lemma line_values_Line dms s v :
  progress_of_line dms (s +:+ Py.nl) = Returns v →
  line_values dms (Line s) = match v with Some p => [p] | None => [] end.
Proof. unfold line_values. intros ->. by destruct v. Qed.

Local Arguments callbacks : simpl never.
Local Arguments line_values : simpl never.

Lemma callbacks_app t1 t2 : callbacks (t1 ++ t2) = callbacks t1 ++ callbacks t2.
Proof. apply omap_app. Qed.

Lemma polled_app t1 t2 : polled t1 → polled t2 → polled (t1 ++ t2).
Proof. induction 1; intros; simpl; [done | constructor; auto | constructor; auto]. Qed.

(** The reading of [polled] on positions of the trace. *)
Lemma polled_before_read t :
  polled t →
  ∀ pre post, t = pre ++ AReadline :: post → ∃ pre', pre = pre' ++ [ACancelCheck false].
Proof.
  induction 1 as [|t Ht IH|a t Ha Ht IH]; intros pre post E.
  - by destruct pre.
  - destruct pre as [|x [|y pre]]; simplify_eq/=.
    + by exists [].
    + destruct (IH _ _ eq_refl) as [pre' ->].
      by exists (ACancelCheck false :: AReadline :: pre').
  - destruct pre as [|x pre]; simplify_eq/=.
    destruct (IH _ _ eq_refl) as [pre' ->]. by eexists (_ :: pre').
Qed.

Context (env : job_env) (output_path : string).

Lemma cancel_cleanup_trace w :
  (cancel_cleanup env output_path w).2 =
    ATerminate :: AWait (Some 5) :: (if exits_on_terminate env then [] else [AKill])
    ++ (if exists_ (fs w) output_path then [AUnlink output_path] else []).
Proof.
  unfold cancel_cleanup.
  destruct (exists_ (fs w) output_path), (unlink_raises env), (exits_on_terminate env);
    reflexivity.
Qed.

Lemma cancel_cleanup_fs w :
  fs (cancel_cleanup env output_path w).1 =
    if exists_ (fs w) output_path && negb (unlink_raises env)
    then fs w ∖ {[output_path]} else fs w.
Proof.
  unfold cancel_cleanup.
  destruct (exists_ (fs w) output_path), (unlink_raises env); reflexivity.
Qed.

Lemma cancel_cleanup_flag w :
  cancel_in (cancel_cleanup env output_path w).1 = cancel_in w.
Proof.
  unfold cancel_cleanup.
  destruct (exists_ (fs w) output_path), (unlink_raises env); reflexivity.
Qed.

Lemma cancel_cleanup_quiet w :
  callbacks (cancel_cleanup env output_path w).2 = []
  ∧ polled (cancel_cleanup env output_path w).2
  ∧ (ACancelCheck true ∉ (cancel_cleanup env output_path w).2)
  ∧ (AWait None ∉ (cancel_cleanup env output_path w).2)
  ∧ (AReadline ∉ (cancel_cleanup env output_path w).2).
Proof.
  rewrite cancel_cleanup_trace.
  destruct (exits_on_terminate env), (exists_ (fs w) output_path); simpl;
    (split_and!; [done | repeat (constructor; [done|]); constructor | notin..]).
Qed.

Context (progress_callback cancel_check : bool) (duration_ms : option Q).

Lemma poll_loop_unfold script w :
  poll_loop env output_path progress_callback cancel_check duration_ms script w =
  let '(cancelled, w1, checked) := check_cancel cancel_check w in
  if cancelled then
    let '(w', t) := cancel_cleanup env output_path w1 in (Cancelled, w', checked ++ t)
  else
    match script with
    | [] => (Broke, w1, checked ++ [AReadline])
    | ReadRaises e :: _ => (LoopRaised e, w1, checked ++ [AReadline])
    | Stall :: rest =>
        let '(r, w', t) :=
          poll_loop env output_path progress_callback cancel_check duration_ms rest w1 in
        (r, w', checked ++ AReadline :: t)
    | Line s :: rest =>
        match progress_of_line duration_ms (s +:+ Py.nl) with
        | Raises e => (LoopRaised e, w1, checked ++ [AReadline])
        | Returns progress =>
            let called :=
              if progress_callback
              then match progress with Some p => [ACallback p] | None => [] end
              else [] in
            let '(r, w', t) :=
              poll_loop env output_path progress_callback cancel_check duration_ms rest w1 in
            (r, w', checked ++ AReadline :: called ++ t)
        end
    end.
Proof. destruct script; reflexivity. Qed.

Local Abbreviation loop_post :=
  (Trace.loop_post env output_path progress_callback cancel_check duration_ms).

Lemma cancel_branch_post script w w1 :
  fs w1 = fs w → cancel_check = true →
  loop_post script w Cancelled (cancel_cleanup env output_path w1).1
    ([ACancelCheck true] ++ (cancel_cleanup env output_path w1).2).
Proof.
  intros Hfs Hcc.
  destruct (cancel_cleanup_quiet w1) as (Hq1 & Hq2 & Hq3 & Hq4 & Hq5).
  exists 0%nat. split; [lia|]. split.
  { rewrite callbacks_app, Hq1, take_0. by destruct progress_callback. }
  split; [intros _; by constructor|].
  split; [done|]. split; [notin|].
  exists [], w1. split_and!; [done | done | done | notin].
Qed.

Lemma poll_loop_spec script w e w' t :
  poll_loop env output_path progress_callback cancel_check duration_ms script w
    = (e, w', t) →
  loop_post script w e w' t.
Proof.
  revert w e w' t. induction script as [|ev rest IH]; intros w e w' t H;
    rewrite poll_loop_unfold in H;
    destruct (check_cancel cancel_check w) as [[b w1] ch] eqn:Hc;
    pose proof (check_cancel_fs _ _ _ _ _ Hc) as Hfs;
    destruct (check_cancel_trace _ _ _ _ _ Hc) as [[Hcc ->]|(Hcc & -> & ->)];
    try destruct b; cbv beta iota in H.
  1, 4: destruct (cancel_cleanup env output_path w1) as [wc tc] eqn:Hcl;
    injection H as <- <- <-;
    match goal with |- Trace.loop_post _ _ _ _ _ ?s _ _ _ _ =>
      pose proof (cancel_branch_post s w w1 Hfs Hcc) as Hpost end;
    by rewrite Hcl in Hpost.
  all: unfold Trace.loop_post.
  - (* end of the output, with a cancel check *)
    injection H as <- <- <-. exists 0%nat. simpl.
    split; [lia|]. split; [by destruct progress_callback|].
    split; [intros _; repeat constructor|]. split_and!; [done | done | notin..].
  - (* end of the output, without *)
    injection H as <- <- <-. exists 0%nat. simpl.
    split; [lia|]. split; [by destruct progress_callback|].
    split; [intros; congruence|]. split_and!; [done | done | notin..].
  - (* a read, with a cancel check *)
    destruct ev as [s| |ex].
    + destruct (progress_of_line_returns duration_ms (s +:+ Py.nl)) as [v Hv].
      rewrite Hv in H.
      destruct (poll_loop env output_path progress_callback cancel_check duration_ms rest w1)
        as [[r w2] t2] eqn:Hrest.
      injection H as <- <- <-.
      destruct (IH _ _ _ _ Hrest) as (n & Hn & Hcb & Hpol & Hend).
      exists (S n). split; [simpl; lia|]. split.
      { cbn [app]. rewrite callbacks_round, callbacks_called, Hcb. simpl.
        rewrite (line_values_Line _ _ _ Hv).
        destruct progress_callback; [|done]. by destruct v. }
      split.
      { intros _. simpl. constructor. apply polled_app; [|by apply Hpol].
        destruct progress_callback; [destruct v|]; repeat constructor; done. }
      destruct r.
      * destruct Hend as (-> & Hf & Hno & Hw).
        split_and!; [done | congruence | | ];
          destruct progress_callback; [destruct v| |destruct v|]; notin.
      * destruct Hend as (_ & Hw & pre & w3 & Hf & -> & -> & Hno).
        split; [done|]. split.
        { destruct progress_callback; [destruct v|]; notin. }
        exists (ACancelCheck false :: AReadline ::
                  (if progress_callback
                   then match v with Some p => [ACallback p] | None => [] end
                   else []) ++ pre), w3.
        split_and!; [congruence | simpl; by rewrite <-app_assoc | done |].
        destruct progress_callback; [destruct v|]; notin.
      * destruct Hend as (Hf & Hno & Hw & Hlook).
        split_and!; [congruence | | | done];
          destruct progress_callback; [destruct v| |destruct v|]; notin.
    + destruct (poll_loop env output_path progress_callback cancel_check duration_ms rest w1)
        as [[r w2] t2] eqn:Hrest.
      injection H as <- <- <-.
      destruct (IH _ _ _ _ Hrest) as (n & Hn & Hcb & Hpol & Hend).
      exists (S n). split; [simpl; lia|]. split; [by simpl|].
      split; [intros _; simpl; constructor; by apply Hpol|].
      destruct r.
      * destruct Hend as (-> & Hf & Hno & Hw).
        split_and!; [done | congruence | notin..].
      * destruct Hend as (_ & Hw & pre & w3 & Hf & -> & -> & Hno).
        split; [done|]. split; [notin|].
        exists (ACancelCheck false :: AReadline :: pre), w3.
        split_and!; [congruence | done | done | notin].
      * destruct Hend as (Hf & Hno & Hw & Hlook).
        split_and!; [congruence | notin.. | done].
    + injection H as <- <- <-. exists 0%nat. simpl.
      split; [lia|]. split; [by destruct progress_callback|].
      split; [intros _; repeat constructor|].
      split_and!; [done | notin.. | done].
  - (* a read, without a cancel check *)
    destruct ev as [s| |ex].
    + destruct (progress_of_line_returns duration_ms (s +:+ Py.nl)) as [v Hv].
      rewrite Hv in H.
      destruct (poll_loop env output_path progress_callback cancel_check duration_ms rest w1)
        as [[r w2] t2] eqn:Hrest.
      injection H as <- <- <-.
      destruct (IH _ _ _ _ Hrest) as (n & Hn & Hcb & Hpol & Hend).
      exists (S n). split; [simpl; lia|]. split.
      { cbn [app]. rewrite callbacks_round', callbacks_called, Hcb. simpl.
        rewrite (line_values_Line _ _ _ Hv).
        destruct progress_callback; [|done]. by destruct v. }
      split; [intros; congruence|].
      destruct r.
      * destruct Hend as (-> & Hf & Hno & Hw).
        split_and!; [done | congruence | | ];
          destruct progress_callback; [destruct v| |destruct v|]; notin.
      * destruct Hend as (? & _). congruence.
      * destruct Hend as (Hf & Hno & Hw & Hlook).
        split_and!; [congruence | | | done];
          destruct progress_callback; [destruct v| |destruct v|]; notin.
    + destruct (poll_loop env output_path progress_callback cancel_check duration_ms rest w1)
        as [[r w2] t2] eqn:Hrest.
      injection H as <- <- <-.
      destruct (IH _ _ _ _ Hrest) as (n & Hn & Hcb & Hpol & Hend).
      exists (S n). split; [simpl; lia|]. split; [by simpl|].
      split; [intros; congruence|].
      destruct r.
      * destruct Hend as (-> & Hf & Hno & Hw).
        split_and!; [done | congruence | notin..].
      * destruct Hend as (? & _). congruence.
      * destruct Hend as (Hf & Hno & Hw & Hlook).
        split_and!; [congruence | notin.. | done].
    + injection H as <- <- <-. exists 0%nat. simpl.
      split; [lia|]. split; [by destruct progress_callback|].
      split; [intros; congruence|].
      split_and!; [done | notin.. | done].
Qed.

End Engine.

(** * The conversion *)


Section Conversion.

Context (sys : platform) (env : job_env).
Context (audio_path cover_image_path output_path : string).
Context (progress_callback cancel_check : bool).
Context (resolution : Z * Z) (fps : Z) (video_bitrate audio_bitrate : string).

Local Abbreviation convert :=
  (convert_audio_to_video sys env audio_path cover_image_path output_path
     progress_callback cancel_check resolution fps video_bitrate audio_bitrate).

Lemma exists_true (s : gset string) (p : string) : exists_ s p = true ↔ p ∈ s.
Proof. apply bool_decide_eq_true. Qed.

Lemma exists_false (s : gset string) (p : string) : exists_ s p = false ↔ p ∉ s.
Proof. apply bool_decide_eq_false. Qed.

(** Past the three checks and the probe, the call is the [try] with its
    handlers. *)
Lemma convert_started (w : world) (duration : option Q) (probed : list action) :
  get_ffmpeg_path sys (fs w) ∈ fs w → audio_path ∈ fs w → cover_image_path ∈ fs w →
  get_audio_duration sys env (fs w) audio_path = (Returns duration, probed) →
  convert w =
    match try_body env
            (ffmpeg_command (get_ffmpeg_path sys (fs w)) cover_image_path audio_path
               output_path resolution fps video_bitrate audio_bitrate)
            output_path progress_callback cancel_check (duration_ms_of duration) w with
    | (Returns r, w', t) => (Returns r, w', probed ++ t)
    | (Raises e, w', t) => (Returns (handler e), w', probed ++ t)
    end.
Proof.
  intros H1 H2 H3 Hp. unfold convert_audio_to_video.
  apply exists_true in H1, H2, H3. rewrite H1, H2, H3. simpl. by rewrite Hp.
Qed.

Lemma try_body_launched cmd (duration_ms : option Q) (w : world) :
  mkdir_raises env = None → popen_raises env = None →
  try_body env cmd output_path progress_callback cancel_check duration_ms w =
    let '(e, w', t) :=
      poll_loop env output_path progress_callback cancel_check duration_ms
        (stdout_script env) (launched env output_path w) in
    match e with
    | Broke =>
        (Returns (exit_result env output_path w'), w',
         [AMkdir (parent output_path); APopen cmd] ++ t ++ [AWait None; AReadStderr])
    | Cancelled =>
        (Returns (failed "Conversão cancelada pelo usuário"), w',
         [AMkdir (parent output_path); APopen cmd] ++ t)
    | LoopRaised ex => (Raises ex, w', [AMkdir (parent output_path); APopen cmd] ++ t)
    end.
Proof.
  intros Hm Hp. unfold try_body. rewrite Hm, Hp.
  destruct (poll_loop _ _ _ _ _ _ _) as [[[| |ex] w'] t]; try done.
  unfold exit_result.
  destruct (bool_decide (exit_code env = 0)); simpl; [|done].
  by destruct (exists_ (fs w') output_path).
Qed.

(** The probe only runs its tools. *)
Lemma get_audio_duration_ffmpeg_trace (s : gset string) r t :
  get_audio_duration_ffmpeg sys env s audio_path = (r, t) → ∃ cmds, t = ARun <$> cmds.
Proof.
  unfold get_audio_duration_ffmpeg.
  destruct (negb (exists_ s (get_ffmpeg_path sys s))); [intros [= <- <-]; by exists []|].
  destruct (ffmpeg_probe_run env) as [e|rc out err].
  - destruct (class e); intros [= <- <-]; by eexists [_].
  - destruct (search_duration err) as [[[[h m] sec] cs]|]; intros [= <- <-]; by eexists [_].
Qed.

Lemma get_audio_duration_trace (s : gset string) r t :
  get_audio_duration sys env s audio_path = (r, t) → ∃ cmds, t = ARun <$> cmds.
Proof.
  unfold get_audio_duration.
  destruct (negb (exists_ s (get_ffprobe_path sys s)));
    [apply get_audio_duration_ffmpeg_trace|].
  destruct (get_audio_duration_ffmpeg sys env s audio_path) as [r' t'] eqn:Hf.
  apply get_audio_duration_ffmpeg_trace in Hf as [cmds ->].
  destruct (ffprobe_run env) as [e|rc out err].
  - destruct (class e); intros [= <- <-];
      first [by eexists [_] | by eexists (_ :: cmds)].
  - destruct (_ && _).
    + destruct (Py.float (Py.strip out)); intros [= <- <-];
        first [by eexists [_] | by eexists (_ :: cmds)].
    + intros [= <- <-]. by eexists (_ :: cmds).
Qed.

(** Every way the call can go. *)
Lemma convert_inv (w : world) r w' t :
  convert w = (r, w', t) →
  (∃ msg, r = Returns (failed msg) ∧ w' = w ∧ t = []
     ∧ (get_ffmpeg_path sys (fs w) ∉ fs w ∨ audio_path ∉ fs w ∨ cover_image_path ∉ fs w))
  ∨ (get_ffmpeg_path sys (fs w) ∈ fs w ∧ audio_path ∈ fs w ∧ cover_image_path ∈ fs w
     ∧ ∃ cmds,
       (∃ e, get_audio_duration sys env (fs w) audio_path = (Raises e, ARun <$> cmds)
          ∧ r = Raises e ∧ w' = w ∧ t = ARun <$> cmds)
       ∨ (∃ duration cmd,
            get_audio_duration sys env (fs w) audio_path = (Returns duration, ARun <$> cmds)
            ∧ ((∃ e, mkdir_raises env = Some e ∧ r = Returns (handler e) ∧ w' = w
                  ∧ t = (ARun <$> cmds) ++ [AMkdir (parent output_path)])
               ∨ (∃ e, mkdir_raises env = None ∧ popen_raises env = Some e
                    ∧ r = Returns (handler e) ∧ w' = w
                    ∧ t = (ARun <$> cmds) ++ [AMkdir (parent output_path); APopen cmd])
               ∨ (∃ e tl,
                    mkdir_raises env = None ∧ popen_raises env = None
                    ∧ poll_loop env output_path progress_callback cancel_check
                        (duration_ms_of duration) (stdout_script env)
                        (launched env output_path w) = (e, w', tl)
                    ∧ r = Returns (loop_result env output_path e w').1
                    ∧ t = (ARun <$> cmds) ++ [AMkdir (parent output_path); APopen cmd]
                            ++ tl ++ (loop_result env output_path e w').2)))).
Proof.
  intros H.
  destruct (decide (get_ffmpeg_path sys (fs w) ∈ fs w)) as [H1|H1]; cycle 1.
  { left. unfold convert_audio_to_video in H.
    apply exists_false in H1 as H1'. rewrite H1' in H. simpl in H.
    injection H as <- <- <-. eexists. split_and!; [done..|]. tauto. }
  destruct (decide (audio_path ∈ fs w)) as [H2|H2]; cycle 1.
  { left. unfold convert_audio_to_video in H.
    apply exists_true in H1 as H1'. apply exists_false in H2 as H2'.
    rewrite H1', H2' in H. simpl in H.
    injection H as <- <- <-. eexists. split_and!; [done..|]. tauto. }
  destruct (decide (cover_image_path ∈ fs w)) as [H3|H3]; cycle 1.
  { left. unfold convert_audio_to_video in H.
    apply exists_true in H1 as H1', H2 as H2'. apply exists_false in H3 as H3'.
    rewrite H1', H2', H3' in H. simpl in H.
    injection H as <- <- <-. eexists. split_and!; [done..|]. tauto. }
  right. split_and!; [done..|].
  destruct (get_audio_duration sys env (fs w) audio_path) as [[duration|e] probed] eqn:Hp.
  - rewrite (convert_started w duration probed) in H by done.
    destruct (get_audio_duration_trace _ _ _ Hp) as [cmds ->].
    exists cmds. right.
    exists duration, (ffmpeg_command (get_ffmpeg_path sys (fs w)) cover_image_path audio_path
                        output_path resolution fps video_bitrate audio_bitrate).
    split; [done|].
    destruct (mkdir_raises env) as [e|] eqn:Hm.
    { left. exists e. unfold try_body in H. rewrite Hm in H.
      injection H as <- <- <-. done. }
    destruct (popen_raises env) as [e|] eqn:Hpo.
    { right. left. exists e. unfold try_body in H. rewrite Hm, Hpo in H.
      injection H as <- <- <-. done. }
    right. right. rewrite try_body_launched in H by done.
    destruct (poll_loop _ _ _ _ _ _ _) as [[e wl] tl] eqn:Hl.
    exists e, tl.
    destruct e as [| |ex]; injection H as <- <- <-; simpl;
      split_and!; try done; by rewrite ?app_nil_r, <-?app_assoc.
  - destruct (get_audio_duration_trace _ _ _ Hp) as [cmds ->].
    exists cmds. left. exists e. split; [done|].
    unfold convert_audio_to_video in H.
    apply exists_true in H1, H2, H3. rewrite H1, H2, H3, Hp in H. simpl in H.
    by injection H as <- <- <-.
Qed.


End Conversion.

(** [s[-n:]] is the end of [s], [n] characters long unless [s] is shorter. *)
Lemma drop_chars_split (n : nat) (s : string) :
  ∃ pre, s = pre +:+ Py.drop_chars n s
       ∧ String.length pre = Nat.min n (String.length s).
Proof.
  revert s. induction n as [|n IH]; intros s.
  - by exists "".
  - destruct s as [|c s]; [by exists ""|].
    destruct (IH s) as (pre & Hs & Hl).
    exists (String c pre). simpl. split; [|by rewrite Hl].
    change (String c pre +:+ Py.drop_chars n s) with (String c (pre +:+ Py.drop_chars n s)).
    by rewrite <-Hs.
Qed.

Lemma last_chars_suffix (n : nat) (s : string) :
  ∃ skipped, s = skipped +:+ Py.last_chars n s
    ∧ String.length (Py.last_chars n s) = Nat.min n (String.length s).
Proof.
  unfold Py.last_chars.
  destruct (drop_chars_split (String.length s - n) s) as (pre & Hs & Hl).
  exists pre. split; [done|].
  apply (f_equal String.length) in Hs. rewrite string_app_length in Hs. lia.
Qed.


(** C7. When the encoder tool, the audio input or the cover image does not
    exist, the call returns a failure at once: the message names the first
    missing precondition (the three messages differ from each other), the
    world is untouched and nothing was done, so no subprocess was started. *)
Theorem missing_precondition_fails_at_once
    (sys : platform) (env : job_env) (audio_path cover_image_path output_path : string)
    (progress_callback cancel_check : bool)
    (resolution : Z * Z) (fps : Z) (video_bitrate audio_bitrate : string) (w : world) :
  get_ffmpeg_path sys (fs w) ∉ fs w ∨ audio_path ∉ fs w ∨ cover_image_path ∉ fs w →
  ∃ msg,
    convert_audio_to_video sys env audio_path cover_image_path output_path
      progress_callback cancel_check resolution fps video_bitrate audio_bitrate w
    = (Returns {| success := false; Converter.output_path := None;
                  Converter.error_message := Some msg |}, w, [])
    ∧ msg =
        (if bool_decide (get_ffmpeg_path sys (fs w) ∈ fs w) then
           if bool_decide (audio_path ∈ fs w) then
             "Imagem de capa não encontrada: " +:+ cover_image_path
           else "Arquivo de áudio não encontrado: " +:+ audio_path
         else "FFmpeg não encontrado em: " +:+ get_ffmpeg_path sys (fs w))
    ∧ (∀ a b c : string,
         "FFmpeg não encontrado em: " +:+ a ≠ "Arquivo de áudio não encontrado: " +:+ b
         ∧ "FFmpeg não encontrado em: " +:+ a ≠ "Imagem de capa não encontrada: " +:+ c
         ∧ "Arquivo de áudio não encontrado: " +:+ b ≠ "Imagem de capa não encontrada: " +:+ c).
Proof.
  intros Hmiss. unfold convert_audio_to_video, exists_, failed.
  destruct (bool_decide_reflect (get_ffmpeg_path sys (fs w) ∈ fs w)) as [H1|H1]; simpl.
  - destruct (bool_decide_reflect (audio_path ∈ fs w)) as [H2|H2]; simpl.
    + destruct (bool_decide_reflect (cover_image_path ∈ fs w)) as [H3|H3]; simpl.
      * exfalso. tauto.
      * eexists. split_and!; [done | done |]. intros a b c. split_and!; discriminate.
    + eexists. split_and!; [done | done |]. intros a b c. split_and!; discriminate.
  - eexists. split_and!; [done | done |]. intros a b c. split_and!; discriminate.
Qed.

Lemma missing_precondition_fails_at_once_witness :
  ("/music/missing.mp3" ∉ fs Scenario.quiet) ∧
  ∃ msg,
    convert_audio_to_video Scenario.linux Scenario.encoder
      "/music/missing.mp3" "/music/cover.png" "/out/a.mpg" true true
      default_resolution default_fps default_video_bitrate default_audio_bitrate
      Scenario.quiet
    = (Returns {| success := false; Converter.output_path := None;
                  Converter.error_message := Some msg |}, Scenario.quiet, []).
Proof.
  assert ("/music/missing.mp3" ∉ fs Scenario.quiet) as Hmiss.
  { apply exists_false. vm_compute. reflexivity. }
  split; [exact Hmiss|].
  destruct (missing_precondition_fails_at_once Scenario.linux Scenario.encoder
              "/music/missing.mp3" "/music/cover.png" "/out/a.mpg" true true
              default_resolution default_fps default_video_bitrate default_audio_bitrate
              Scenario.quiet) as (msg & Hr & _).
  { right. left. exact Hmiss. }
  exists msg. exact Hr.
Defined.


Ltac absurd_in H :=
  exfalso; revert H;
  match goal with |- ?x ∈ ?l → False => change (x ∉ l) end; notin.

Lemma runs_quiet (cmds : list (list string)) :
  polled (ARun <$> cmds) ∧ (ACancelCheck true ∉ ARun <$> cmds)
  ∧ (AWait None ∉ ARun <$> cmds) ∧ callbacks (ARun <$> cmds) = [].
Proof.
  induction cmds as [|c cmds (IH1 & IH2 & IH3 & IH4)]; simpl.
  - split_and!; [constructor | notin.. | done].
  - split_and!; [by constructor | notin.. | done].
Qed.

(** After a poll that saw the flag, the output file is gone unless the
    unlink raised. *)
Lemma cancelled_output_unlinked
    (sys : platform) (env : job_env) (audio_path cover_image_path output_path : string)
    (progress_callback cancel_check : bool)
    (resolution : Z * Z) (fps : Z) (video_bitrate audio_bitrate : string)
    (w w' : world) (r : outcome ConversionResult) (t : list action) :
  convert_audio_to_video sys env audio_path cover_image_path output_path
    progress_callback cancel_check resolution fps video_bitrate audio_bitrate w
    = (r, w', t) →
  ACancelCheck true ∈ t → unlink_raises env = false → output_path ∉ fs w'.
Proof.
  intros H Hin Hunlink. apply convert_inv in H.
  destruct H as [(msg & _ & _ & -> & _)|(_ & _ & _ & cmds & H)];
    [by apply elem_of_nil in Hin|].
  destruct (runs_quiet cmds) as (_ & Hr2 & _).
  destruct H as [(e & _ & _ & _ & ->)|(duration & cmd & _ & H)]; [done|].
  destruct H as [(e & _ & _ & _ & ->)|[(e & _ & _ & _ & _ & ->)|H]];
    [absurd_in Hin..|].
  destruct H as (e & tl & _ & _ & Hl & _ & ->).
  apply poll_loop_spec in Hl as (n & _ & _ & _ & Hend).
  destruct e as [| |ex]; simpl in *.
  - destruct Hend as (_ & _ & Hno & _). absurd_in Hin.
  - destruct Hend as (_ & _ & pre & w1 & _ & _ & -> & _).
    rewrite cancel_cleanup_fs, Hunlink. simpl. rewrite andb_true_r.
    destruct (exists_ (fs w1) output_path) eqn:Hex.
    + rewrite not_elem_of_difference, elem_of_singleton. by right.
    + by apply exists_false.
  - destruct Hend as (_ & Hno & _). rewrite app_nil_r in Hin. absurd_in Hin.
Qed.

(** C3. With a [cancel_check], every read of the progress stream comes right
    after a check that answered [False]; and when a check answers [True] the
    engine terminates the encoder, waits at most 5 seconds, kills it if it is
    still running, unlinks the output file if it exists (an error of the
    unlink changes nothing), and returns the cancelled failure at once: the
    trace ends there, with no wait for the exit. *)
Theorem cancellation_at_poll
    (sys : platform) (env : job_env) (audio_path cover_image_path output_path : string)
    (progress_callback : bool)
    (resolution : Z * Z) (fps : Z) (video_bitrate audio_bitrate : string)
    (w w' : world) (r : outcome ConversionResult) (t : list action) :
  convert_audio_to_video sys env audio_path cover_image_path output_path
    progress_callback true resolution fps video_bitrate audio_bitrate w = (r, w', t) →
  (∀ pre post, t = pre ++ AReadline :: post → ∃ pre', pre = pre' ++ [ACancelCheck false])
  ∧ (ACancelCheck true ∈ t →
     ∃ pre w1,
       t = pre ++ ACancelCheck true :: ATerminate :: AWait (Some 5)
             :: (if exits_on_terminate env then [] else [AKill])
             ++ (if exists_ (fs w1) output_path then [AUnlink output_path] else [])
       ∧ fs w1 = fs (launched env output_path w)
       ∧ fs w' = (if exists_ (fs w1) output_path && negb (unlink_raises env)
                  then fs w1 ∖ {[output_path]} else fs w1)
       ∧ r = Returns {| success := false; Converter.output_path := None;
                        Converter.error_message := Some "Conversão cancelada pelo usuário" |}
       ∧ (AWait None ∉ t)
       ∧ (unlink_raises env = false → output_path ∉ fs w')).
Proof.
  intros H. apply convert_inv in H.
  destruct H as [(msg & -> & -> & -> & _)|(_ & _ & _ & cmds & H)].
  { split; [intros [|??] ??; done|]. intros Hin. by apply elem_of_nil in Hin. }
  destruct (runs_quiet cmds) as (Hr1 & Hr2 & Hr3 & _).
  destruct H as [(e & _ & -> & -> & ->)|(duration & cmd & _ & H)].
  { split; [by apply polled_before_read|]. intros Hin. done. }
  destruct H as [(e & _ & -> & -> & ->)|[(e & _ & _ & -> & -> & ->)|H]].
  { split.
    - apply polled_before_read, polled_app; [done|]. repeat constructor; done.
    - intros Hin. absurd_in Hin. }
  { split.
    - apply polled_before_read, polled_app; [done|]. repeat constructor; done.
    - intros Hin. absurd_in Hin. }
  destruct H as (e & tl & _ & _ & Hl & -> & ->).
  apply poll_loop_spec in Hl as (n & _ & _ & Hpol & Hend).
  specialize (Hpol eq_refl).
  split.
  { apply polled_before_read. apply polled_app; [done|].
    do 2 (constructor; [done|]). apply polled_app; [done|].
    destruct e; simpl; repeat constructor; done. }
  intros Hin. destruct e as [| |ex]; simpl in *.
  - destruct Hend as (_ & _ & Hno & _). absurd_in Hin.
  - destruct Hend as (_ & Hw & pre & w1 & Hfs & -> & -> & Hno).
    exists ((ARun <$> cmds) ++ [AMkdir (parent output_path); APopen cmd] ++ pre), w1.
    rewrite cancel_cleanup_trace, cancel_cleanup_fs in *.
    split_and!.
    + rewrite app_nil_r. by rewrite <-!app_assoc.
    + done.
    + done.
    + done.
    + rewrite app_nil_r. notin.
    + intros ->. simpl. rewrite andb_true_r.
      destruct (exists_ (fs w1) output_path) eqn:Hex.
      * rewrite not_elem_of_difference, elem_of_singleton. by right.
      * by apply exists_false.
  - destruct Hend as (_ & Hno & _). rewrite app_nil_r in Hin. absurd_in Hin.
Qed.

Lemma cancellation_at_poll_witness :
  ∃ w' t,
    convert_audio_to_video Scenario.linux Scenario.encoder
      "/music/a.mp3" "/music/cover.png" "/out/a.mpg" true true
      default_resolution default_fps default_video_bitrate default_audio_bitrate
      Scenario.soon_cancelled
    = (Returns {| success := false; Converter.output_path := None;
                  Converter.error_message := Some "Conversão cancelada pelo usuário" |},
       w', t)
    ∧ (ACancelCheck true ∈ t) ∧ (AWait None ∉ t) ∧ ("/out/a.mpg" ∉ fs w').
Proof.
  eexists _, _. split; [vm_compute; reflexivity|].
  assert (ACancelCheck true ∈
            [ARun ["/usr/bin/ffprobe"; "-v"; "error"; "-show_entries"; "format=duration";
                   "-of"; "default=noprint_wrappers=1:nokey=1"; "/music/a.mp3"];
             AMkdir "/out";
             APopen (ffmpeg_command "/usr/bin/ffmpeg" "/music/cover.png" "/music/a.mp3"
                       "/out/a.mpg" default_resolution default_fps
                       default_video_bitrate default_audio_bitrate);
             ACancelCheck false; AReadline; ACancelCheck false; AReadline;
             ACallback (Qdiv (Qdiv (inject_Z 5000000) (inject_Z 1000))
                             (Qmult (10000000 # 1000000) (inject_Z 1000)));
             ACancelCheck true; ATerminate; AWait (Some 5); AUnlink "/out/a.mpg"]) as Hin.
  { repeat constructor. }
  split; [exact Hin|].
  edestruct (cancellation_at_poll Scenario.linux Scenario.encoder
               "/music/a.mp3" "/music/cover.png" "/out/a.mpg" true
               default_resolution default_fps default_video_bitrate default_audio_bitrate
               Scenario.soon_cancelled) as [_ Hc]; [vm_compute; reflexivity|].
  destruct (Hc Hin) as (pre & w1 & _ & _ & _ & _ & Hw & Hout).
  split; [exact Hw | apply Hout; reflexivity].
Defined.

(** * The progress stream *)

Section Progress.

Lemma truthy_scaled (d : Q) : Py.truthy d = true → Py.truthy (Qmult d (inject_Z 1000)) = true.
Proof.
  unfold Py.truthy. rewrite !negb_true_iff. intros H.
  apply not_true_iff_false. apply not_true_iff_false in H.
  intros E. apply H. apply Qeq_bool_iff in E. apply Qeq_bool_iff.
  apply Qmult_integral in E as [E|E]; [done|]. discriminate E.
Qed.

Lemma duration_ms_of_known (duration : option Q) (d : Q) :
  duration_ms_of duration = Some d → known (Some d) = true.
Proof.
  unfold duration_ms_of. destruct duration as [x|]; [|done].
  destruct (Py.truthy x) eqn:Hx; [|done]. intros [= <-]. simpl. by apply truthy_scaled.
Qed.

Lemma duration_ms_of_zero (d : Q) : Qeq d (inject_Z 0) → duration_ms_of (Some d) = None.
Proof.
  intros H. unfold duration_ms_of, Py.truthy.
  apply Qeq_bool_iff in H. by rewrite H.
Qed.

(** Without a known duration only [progress=end] reports something. *)
Lemma progress_of_line_unknown (line : string) :
  progress_of_line None line = Returns None
  ∨ (Py.partition "=" (Py.strip line) = Some ("progress", "end")
     ∧ progress_of_line None line = Returns (Some (inject_Z 1))).
Proof.
  unfold progress_of_line.
  destruct (Py.partition "=" (Py.strip line)) as [[key value]|]; [|by left].
  simpl. rewrite !andb_false_r.
  destruct (bool_decide_reflect (key = "progress")) as [->|]; [|by left].
  destruct (bool_decide_reflect (value = "end")) as [->|]; [by right | by left].
Qed.

Lemma line_values_unknown (ev : read_event) (v : Q) :
  v ∈ line_values None ev → v = inject_Z 1.
Proof.
  unfold line_values. destruct ev as [s| |e]; try by intros ?%elem_of_nil.
  destruct (progress_of_line_unknown (s +:+ Py.nl)) as [->|[_ ->]].
  - by intros ?%elem_of_nil.
  - by intros ->%list_elem_of_singleton.
Qed.

Lemma elem_of_concat {A} (x : A) (ls : list (list A)) :
  x ∈ concat ls ↔ ∃ l, x ∈ l ∧ l ∈ ls.
Proof.
  induction ls as [|l ls IH]; simpl.
  - split; [by intros ?%elem_of_nil | by intros (l & _ & ?%elem_of_nil)].
  - rewrite elem_of_app, IH. split.
    + intros [H|(l' & H1 & H2)]; [exists l | exists l']; split; try done;
        [by left | by right].
    + intros (l' & H1 & [->|H2]%elem_of_cons); [by left | right; eauto].
Qed.

Lemma all_values_unknown (script : list read_event) (v : Q) :
  v ∈ concat (line_values None <$> script) → v = inject_Z 1.
Proof.
  intros H. apply elem_of_concat in H as (l & Hv & Hl).
  apply list_elem_of_fmap in Hl as (ev & -> & _). by eapply line_values_unknown.
Qed.


(** An [out_time_us] line with an integer, the duration known. *)
Lemma progress_of_line_out_time_us (d : Q) (line key value : string) (us : Z) :
  Py.partition "=" (Py.strip line) = Some (key, value) → key = "out_time_us" →
  Py.int value = Some us → Py.truthy d = true →
  progress_of_line (Some d) line =
    Returns (Some (Py.min (Qdiv (Qdiv (inject_Z us) (inject_Z 1000)) d) (inject_Z 1))).
Proof.
  intros Hp -> Hi Hd. unfold progress_of_line. rewrite Hp. simpl. rewrite Hd. simpl.
  rewrite Hi. unfold fraction. by rewrite truediv_returns.
Qed.

(** [progress=end], whatever is known of the duration. *)
Lemma progress_of_line_end (duration_ms : option Q) (line : string) :
  Py.partition "=" (Py.strip line) = Some ("progress", "end") →
  progress_of_line duration_ms line = Returns (Some (inject_Z 1)).
Proof. intros Hp. unfold progress_of_line. by rewrite Hp. Qed.

(** The lines that report nothing. *)
Lemma progress_of_line_ignored (duration_ms : option Q) (line : string) :
  Py.partition "=" (Py.strip line) = None
  ∨ (∃ key value, Py.partition "=" (Py.strip line) = Some (key, value)
       ∧ ((key ≠ "out_time_us" ∧ key ≠ "out_time" ∧ key ≠ "progress")
          ∨ (key = "progress" ∧ value ≠ "end")
          ∨ (key = "out_time_us" ∧ Py.int value = None)
          ∨ (key = "out_time"
             ∧ (length (Py.split ":" value) ≠ 3%nat
                ∨ ∃ p0 p1 p2, Py.split ":" value = [p0; p1; p2]
                    ∧ (Py.int p0 = None ∨ Py.int p1 = None ∨ Py.float p2 = None))))) →
  progress_of_line duration_ms line = Returns None.
Proof.
  unfold progress_of_line.
  intros [->|(key & value & -> & H)]; [done|].
  destruct H as [(H1 & H2 & H3)|[(-> & H)|[(-> & H)|(-> & H)]]].
  - rewrite !(bool_decide_eq_false_2 (key = _)) by done. done.
  - simpl. by rewrite (bool_decide_eq_false_2 (value = _)) by done.
  - simpl. rewrite H. by destruct (known duration_ms).
  - simpl. destruct (known duration_ms); [|done].
    destruct H as [H|(p0 & p1 & p2 & -> & H)].
    + by destruct (Py.split ":" value) as [|? [|? [|? [|]]]].
    + destruct H as [->|[->| ->]]; [done | by destruct (Py.int p0) |].
      by destruct (Py.int p0), (Py.int p1).
Qed.

Context (sys : platform) (env : job_env).
Context (audio_path cover_image_path output_path : string) (cancel_check : bool).
Context (resolution : Z * Z) (fps : Z) (video_bitrate audio_bitrate : string).

(** The values a call reports are those of the lines it got to read, in
    order; after a natural exit these are all the lines. *)
Lemma convert_callbacks (w w' : world) r t (duration : option Q) (probed : list action) :
  convert_audio_to_video sys env audio_path cover_image_path output_path
    true cancel_check resolution fps video_bitrate audio_bitrate w = (r, w', t) →
  get_audio_duration sys env (fs w) audio_path = (Returns duration, probed) →
  ∃ n, (n ≤ length (stdout_script env))%nat
    ∧ callbacks t =
        concat (line_values (duration_ms_of duration) <$> take n (stdout_script env))
    ∧ (AWait None ∈ t → n = length (stdout_script env)).
Proof.
  intros H Hp. apply convert_inv in H.
  destruct H as [(msg & -> & -> & -> & _)|(_ & _ & _ & cmds & H)].
  { exists 0%nat. split_and!; [lia | done | by intros ?%elem_of_nil]. }
  destruct (runs_quiet cmds) as (_ & _ & Hr3 & Hr4).
  destruct H as [(e & He & _)|(duration' & cmd & Hp' & H)]; [congruence|].
  assert (duration' = duration) as -> by congruence.
  destruct H as [(e & _ & -> & -> & ->)|[(e & _ & _ & -> & -> & ->)|H]].
  { exists 0%nat. split_and!; [lia | by rewrite callbacks_app, Hr4 |].
    intros Hin. absurd_in Hin. }
  { exists 0%nat. split_and!; [lia | by rewrite callbacks_app, Hr4 |].
    intros Hin. absurd_in Hin. }
  destruct H as (e & tl & _ & _ & Hl & -> & ->).
  apply poll_loop_spec in Hl as (n & Hn & Hcb & _ & Hend).
  exists n. split; [done|]. split.
  { rewrite !callbacks_app, Hr4, Hcb. destruct e; simpl; by rewrite app_nil_r. }
  intros Hin. destruct e as [| |ex]; simpl in *.
  - by destruct Hend as (-> & _).
  - destruct Hend as (_ & Hw & _). rewrite app_nil_r in Hin. absurd_in Hin.
  - destruct Hend as (_ & _ & Hw & _). rewrite app_nil_r in Hin. absurd_in Hin.
Qed.


End Progress.



(** Two lines of a ten-second input, and an unparsable one. *)
Example out_time_us_half :
  ∃ q, progress_of_line (Some (inject_Z 10000)) ("out_time_us=5000000" +:+ Py.nl)
         = Returns (Some q) ∧ Qeq q (1 # 2)%Q.
Proof. eexists. split; [vm_compute; reflexivity | reflexivity]. Qed.

Example out_time_half :
  ∃ q, progress_of_line (Some (inject_Z 10000)) ("out_time=00:00:05.000000" +:+ Py.nl)
         = Returns (Some q) ∧ Qeq q (1 # 2)%Q.
Proof. eexists. split; [vm_compute; reflexivity | reflexivity]. Qed.

Example out_time_us_not_a_number :
  progress_of_line (Some (inject_Z 10000)) ("out_time_us=N/A" +:+ Py.nl) = Returns None.
Proof. reflexivity. Qed.

(** C10. A probed duration of exactly 0.0 is an unknown duration:
    [duration_ms] is [None], so [out_time_us] and [out_time] lines report
    nothing, no line raises (the division is never reached), and every value
    passed to the callback is the 1.0 of a [progress=end] line. *)
Theorem zero_duration_is_unknown
    (sys : platform) (env : job_env) (audio_path cover_image_path output_path : string)
    (cancel_check : bool)
    (resolution : Z * Z) (fps : Z) (video_bitrate audio_bitrate : string)
    (w w' : world) (r : outcome ConversionResult) (t : list action)
    (d : Q) (probed : list action) :
  convert_audio_to_video sys env audio_path cover_image_path output_path
    true cancel_check resolution fps video_bitrate audio_bitrate w = (r, w', t) →
  get_audio_duration sys env (fs w) audio_path = (Returns (Some d), probed) →
  Qeq d (inject_Z 0) →
  duration_ms_of (Some d) = None
  ∧ (∀ line key value,
       Py.partition "=" (Py.strip line) = Some (key, value) →
       key = "out_time_us" ∨ key = "out_time" →
       progress_of_line (duration_ms_of (Some d)) line = Returns None)
  ∧ (∀ line e, progress_of_line (duration_ms_of (Some d)) line ≠ Raises e)
  ∧ (∃ n, (n ≤ length (stdout_script env))%nat
       ∧ callbacks t = concat (line_values None <$> take n (stdout_script env)))
  ∧ (∀ ev, line_values None ev = []
           ∨ ∃ s, ev = Line s
               ∧ Py.partition "=" (Py.strip (s +:+ Py.nl)) = Some ("progress", "end")
               ∧ line_values None ev = [inject_Z 1])
  ∧ (∀ v, v ∈ callbacks t → v = inject_Z 1).
Proof.
  intros H Hp Hz. pose proof (duration_ms_of_zero d Hz) as Hnone.
  destruct (convert_callbacks _ _ _ _ _ _ _ _ _ _ _ _ _ _ _ _ H Hp) as (n & Hn & Hcb & _).
  rewrite Hnone in *.
  split_and!.
  - done.
  - intros line key value Hpart Hk. unfold progress_of_line. rewrite Hpart. simpl.
    rewrite !andb_false_r. by destruct Hk as [-> | ->].
  - intros line e. by destruct (progress_of_line_returns None line) as [v ->].
  - by exists n.
  - intros [s| |e]; [|by left..]. unfold line_values.
    destruct (progress_of_line_unknown (s +:+ Py.nl)) as [->|[Hpart ->]]; [by left|].
    right. by exists s.
  - intros v Hv. rewrite Hcb in Hv. by eapply all_values_unknown.
Qed.

Lemma zero_duration_is_unknown_witness :
  ∃ r w' t,
    convert_audio_to_video Scenario.linux Scenario.zero_probe
      "/music/a.mp3" "/music/cover.png" "/out/a.mpg" true true
      default_resolution default_fps default_video_bitrate default_audio_bitrate
      Scenario.quiet = (r, w', t)
    ∧ callbacks t = [inject_Z 1]
    ∧ ∀ v, v ∈ callbacks t → v = inject_Z 1.
Proof.
  eexists _, _, _. split; [vm_compute; reflexivity|].
  split; [vm_compute; reflexivity|].
  edestruct (zero_duration_is_unknown Scenario.linux Scenario.zero_probe
               "/music/a.mp3" "/music/cover.png" "/out/a.mpg" true
               default_resolution default_fps default_video_bitrate default_audio_bitrate
               Scenario.quiet) as (_ & _ & _ & _ & _ & Hall);
    [vm_compute; reflexivity | vm_compute; reflexivity | reflexivity | exact Hall].
Defined.

(** * The queue runner *)

Section Queue.

Context (sys : platform) (oracle : nat → job_env).

Lemma read_flag_true (w w' : world) : read_flag w = (true, w') → w' = w.
Proof.
  unfold read_flag. destruct (cancel_in w) as [[|n]|]; intros [= <-]; done.
Qed.

(** A probe whose exceptions are caught returns. *)
Lemma get_audio_duration_ffmpeg_returns env (s : gset string) audio_path :
  probe_caught env = true →
  ∃ duration t, get_audio_duration_ffmpeg sys env s audio_path = (Returns duration, t).
Proof.
  unfold probe_caught, get_audio_duration_ffmpeg. intros [_ H]%andb_true_iff.
  destruct (negb (exists_ s (get_ffmpeg_path sys s))); [by eexists _, _|].
  destruct (ffmpeg_probe_run env) as [e|rc out err].
  - destruct (class e); try done. by eexists _, _.
  - destruct (search_duration err) as [[[[h m] sec] cs]|]; by eexists _, _.
Qed.

Lemma get_audio_duration_returns env (s : gset string) audio_path :
  probe_caught env = true →
  ∃ duration t, get_audio_duration sys env s audio_path = (Returns duration, t).
Proof.
  intros Hc. unfold get_audio_duration.
  destruct (get_audio_duration_ffmpeg_returns env s audio_path Hc) as (d & t & Hf).
  destruct (negb (exists_ s (get_ffprobe_path sys s))); [by eexists _, _|].
  rewrite Hf. apply andb_true_iff in Hc as [Hc _]. unfold probe_caught in Hc.
  destruct (ffprobe_run env) as [e|rc out err].
  - destruct (class e); try done; by eexists _, _.
  - destruct (_ && _); [|by eexists _, _].
    destruct (Py.float (Py.strip out)); by eexists _, _.
Qed.

(** With such a probe the call returns a result. *)
Lemma convert_returns env audio_path cover_image_path output_path
    progress_callback cancel_check resolution fps video_bitrate audio_bitrate (w : world) :
  probe_caught env = true →
  ∃ result w' t,
    convert_audio_to_video sys env audio_path cover_image_path output_path
      progress_callback cancel_check resolution fps video_bitrate audio_bitrate w
    = (Returns result, w', t).
Proof.
  intros Hc.
  destruct (convert_audio_to_video sys env audio_path cover_image_path output_path
      progress_callback cancel_check resolution fps video_bitrate audio_bitrate w)
    as [[r w'] t] eqn:H.
  destruct (convert_inv _ _ _ _ _ _ _ _ _ _ _ _ _ _ _ H)
    as [(msg & -> & _)|(_ & _ & _ & cmds & Hcase)]; [by eexists _, _, _|].
  destruct Hcase as [(e & He & _)|(duration & cmd & _ & Hcase)].
  { destruct (get_audio_duration_returns env (fs w) audio_path Hc) as (d & t' & Hd).
    congruence. }
  destruct Hcase as [(e & _ & -> & _)|[(e & _ & _ & -> & _)|(e & tl & _ & _ & _ & -> & _)]];
    by eexists _, _, _.
Qed.

(** One turn of the loop of the worker. *)
Lemma run_item_inv (row : nat) (audio_path cover_path output_path : string)
    (w w' : world) (evs : list event) (alive : bool) :
  run_item sys oracle (row, audio_path, cover_path, output_path) w = (w', evs, alive) →
  (read_flag w = (true, w') ∧ evs = [Emit (status_updated row STATUS_CANCELLED)]
   ∧ alive = true)
  ∨ ∃ w1 r w2 t,
      read_flag w = (false, w1)
      ∧ convert_audio_to_video sys (oracle row) audio_path cover_path output_path
          true true default_resolution default_fps
          default_video_bitrate default_audio_bitrate w1 = (r, w2, t)
      ∧ match r with
        | Raises e =>
            w' = w2 ∧ alive = false
            ∧ evs = Emit (status_updated row STATUS_CONVERTING) :: (relay row <$> t)
        | Returns result =>
            ∃ cancelled, read_flag w2 = (cancelled, w') ∧ alive = true
              ∧ evs = Emit (status_updated row STATUS_CONVERTING) :: (relay row <$> t)
                        ++ finished row cancelled result
        end.
Proof.
  unfold run_item. destruct (read_flag w) as [[|] w1] eqn:Hf.
  - intros [= <- <- <-]. by left.
  - destruct (convert_audio_to_video _ _ _ _ _ _ _ _ _ _ _ _) as [[r w2] t] eqn:Hc.
    intros H. right. exists w1, r, w2, t. split_and!; [done..|].
    destruct r as [result|e].
    + destruct (read_flag w2) as [c w3] eqn:Hf2. injection H as <- <- <-. by exists c.
    + by injection H as <- <- <-.
Qed.

Lemma run_items_app (l1 l2 : list work_item) (w : world) :
  run_items sys oracle (l1 ++ l2) w =
    let '(w1, evs1, alive) := run_items sys oracle l1 w in
    if alive then
      let '(w2, evs2, alive') := run_items sys oracle l2 w1 in (w2, evs1 ++ evs2, alive')
    else (w1, evs1, false).
Proof.
  revert w. induction l1 as [|item l1 IH]; intros w; simpl.
  - by destruct (run_items sys oracle l2 w) as [[??]?].
  - destruct (run_item sys oracle item w) as [[w1 evs1] [|]]; [|done].
    rewrite IH. destruct (run_items sys oracle l1 w1) as [[w2 evs2] [|]]; [|done].
    destruct (run_items sys oracle l2 w2) as [[w3 evs3] a]. by rewrite app_assoc.
Qed.

(** Once the flag is set, the jobs that are left are only marked. *)
Lemma run_items_cancelled (items : list work_item) (w : world) :
  read_flag w = (true, w) →
  run_items sys oracle items w = (w, skipped <$> items, true).
Proof.
  intros Hf. induction items as [|[[[row a] c] o] items IH]; simpl; [done|].
  by rewrite Hf, IH.
Qed.


Lemma completions_app row evs1 evs2 :
  completions row (evs1 ++ evs2) = completions row evs1 ++ completions row evs2.
Proof. apply omap_app. Qed.

Lemma completions_relay row r (t : list action) : completions row (relay r <$> t) = [].
Proof. induction t as [|a t IH]; [done|]. by destruct a. Qed.

Lemma completions_finished row cancelled result :
  completions row (finished row cancelled result) = [carried cancelled result].
Proof.
  unfold finished, carried, completions.
  destruct cancelled; [|destruct (success result)]; simpl; by rewrite decide_True.
Qed.

Lemma elem_of_completions row ok out err evs :
  Emit (conversion_completed row ok out err) ∈ evs ↔ (ok, out, err) ∈ completions row evs.
Proof.
  unfold completions. rewrite list_elem_of_omap. split.
  - intros H. eexists. split; [exact H|]. simpl. by rewrite decide_True.
  - intros ([[| | | ]|] & Hin & Heq); simpl in Heq; try done.
    destruct (decide _) as [->|]; [|done]. by injection Heq as -> -> ->.
Qed.

(** A turn of the loop for a row whose probe is caught. *)
Lemma run_item_reports (row : nat) (audio_path cover_path output_path : string)
    (w : world) :
  probe_caught (oracle row) = true →
  ∃ w' evs,
    run_item sys oracle (row, audio_path, cover_path, output_path) w = (w', evs, true)
    ∧ ((read_flag w = (true, w') ∧ evs = [Emit (status_updated row STATUS_CANCELLED)])
       ∨ ∃ w1 result w2 t cancelled,
           read_flag w = (false, w1)
           ∧ convert_audio_to_video sys (oracle row) audio_path cover_path output_path
               true true default_resolution default_fps
               default_video_bitrate default_audio_bitrate w1 = (Returns result, w2, t)
           ∧ read_flag w2 = (cancelled, w')
           ∧ evs = Emit (status_updated row STATUS_CONVERTING) :: (relay row <$> t)
                     ++ finished row cancelled result
           ∧ completions row evs = [carried cancelled result]).
Proof.
  intros Hc.
  destruct (run_item sys oracle (row, audio_path, cover_path, output_path) w)
    as [[w' evs] alive] eqn:H.
  apply run_item_inv in H as [(Hf & -> & ->)|(w1 & r & w2 & t & Hf & Hconv & H)].
  { eexists w', _. split; [done|]. by left. }
  destruct (convert_returns (oracle row) audio_path cover_path output_path true true
              default_resolution default_fps default_video_bitrate default_audio_bitrate
              w1 Hc) as (result & w2' & t' & Hret).
  rewrite Hret in Hconv. injection Hconv as <- <- <-.
  destruct H as (c & Hf2 & -> & ->).
  eexists w', _. split; [done|]. right. exists w1, result, w2', t', c.
  split_and!; [done..|].
  change (Emit ?e :: ?l ++ ?k) with ([Emit e] ++ l ++ k).
  rewrite !completions_app, completions_relay, completions_finished. done.
Qed.

Lemma run_items_reports (items : list work_item) (w : world) :
  (∀ item, item ∈ items → probe_caught (oracle item.1.1.1) = true) →
  ∃ w' evs,
    run_items sys oracle items w = (w', evs, true)
    ∧ ∀ item, item ∈ items →
        completions item.1.1.1 evs ≠ [] ∨ skipped item ∈ evs.
Proof.
  revert w. induction items as [|[[[row a] c] o] items IH]; intros w Hc.
  { exists w, []. split; [done|]. by intros item ?%elem_of_nil. }
  destruct (run_item_reports row a c o w) as (w1 & evs1 & Hrun & Hcase).
  { apply (Hc (row, a, c, o)). by left. }
  destruct (IH w1) as (w2 & evs2 & Hrest & Hall).
  { intros item Hin. apply Hc. by right. }
  exists w2, (evs1 ++ evs2). split.
  { simpl. simpl in Hrun. rewrite Hrun. simpl in Hrest. by rewrite Hrest. }
  intros item [->|Hin]%elem_of_cons.
  - destruct Hcase as [(_ & ->)|(w1' & result & w2' & t & cc & _ & _ & _ & _ & Hcomp)].
    + right. apply elem_of_app. left. by left.
    + left. simpl. rewrite completions_app, Hcomp. done.
  - destruct (Hall item Hin) as [Hne|Hsk].
    + left. rewrite completions_app. intros [_ ?]%app_eq_nil. done.
    + right. apply elem_of_app. by right.
Qed.

End Queue.




(** C4, as the specification states it, fails: when the flag is set after
    the last poll of the job that is converting, the encoder exits by
    itself, the job is reported as cancelled, and its output file stays. *)
Lemma cancelled_job_keeps_its_output :
  ¬ (last (statuses 0 (run Scenario.linux (λ _, Scenario.encoder) Scenario.batch
                          Scenario.cancelled_late).2) = Some STATUS_CANCELLED
     ∧ ("/out/a.mpg" ∉ fs (run Scenario.linux (λ _, Scenario.encoder) Scenario.batch
                             Scenario.cancelled_late).1)
     ∧ last (statuses 1 (run Scenario.linux (λ _, Scenario.encoder) Scenario.batch
                            Scenario.cancelled_late).2) = Some STATUS_CANCELLED
     ∧ engine_actions 1 (run Scenario.linux (λ _, Scenario.encoder) Scenario.batch
                           Scenario.cancelled_late).2 = []).
Proof.
  intros (_ & Hout & _). apply Hout. apply exists_true. vm_compute. reflexivity.
Qed.

(** C4, amended.  When the flag, not set when a job started, is set by the
    time the job returns, the job is reported as cancelled, and every job
    after it gets the cancelled status and nothing else: the engine does
    nothing for it.  If the engine saw the flag at one of its polls and the
    unlink raised nothing, the output file of the job does not exist. *)
Theorem cancelled_mid_batch
    (sys : platform) (oracle : nat → job_env) (before after : list work_item)
    (row : nat) (audio_path cover_path output_path : string)
    (w0 w w1 w2 w3 : world) (evs0 : list event)
    (result : ConversionResult) (t : list action) :
  run_items sys oracle before w0 = (w, evs0, true) →
  read_flag w = (false, w1) →
  convert_audio_to_video sys (oracle row) audio_path cover_path output_path
    true true default_resolution default_fps default_video_bitrate default_audio_bitrate w1
    = (Returns result, w2, t) →
  read_flag w2 = (true, w3) →
  ∃ w',
    run sys oracle (before ++ (row, audio_path, cover_path, output_path) :: after) w0
    = (w', evs0 ++ Emit (status_updated row STATUS_CONVERTING) :: (relay row <$> t)
             ++ [Emit (status_updated row STATUS_CANCELLED);
                 Emit (conversion_completed row false "" "Conversão cancelada")]
             ++ (skipped <$> after) ++ [Emit all_completed])
    ∧ fs w' = fs w2
    ∧ (ACancelCheck true ∈ t → unlink_raises (oracle row) = false →
       output_path ∉ fs w').
Proof.
  intros Hbefore Hstart Hconv Hend.
  pose proof (read_flag_true _ _ Hend) as ->.
  exists w2. split_and!.
  - unfold run. rewrite run_items_app, Hbefore. simpl.
    rewrite Hstart, Hconv, Hend, (run_items_cancelled _ _ _ _ Hend). simpl.
    repeat (rewrite <-app_assoc || rewrite <-app_comm_cons). done.
  - done.
  - intros Hin Hunlink.
    by eapply cancelled_output_unlinked.
Qed.

Lemma cancelled_mid_batch_witness :
  ∃ w' t,
    run Scenario.linux (λ _, Scenario.encoder) Scenario.batch Scenario.cancelled_midway
    = (w', Emit (status_updated 0 STATUS_CONVERTING) :: (relay 0%nat <$> t)
            ++ [Emit (status_updated 0 STATUS_CANCELLED);
                Emit (conversion_completed 0 false "" "Conversão cancelada")]
            ++ [Emit (status_updated 1 STATUS_CANCELLED)] ++ [Emit all_completed])
    ∧ ("/out/a.mpg" ∉ fs w').
Proof.
  edestruct (cancelled_mid_batch Scenario.linux (λ _, Scenario.encoder) []
               [(1%nat, "/music/b.mp3", "/music/cover.png", "/out/b.mpg")]
               0%nat "/music/a.mp3" "/music/cover.png" "/out/a.mpg"
               Scenario.cancelled_midway)
    as (w' & Hrun & _ & Hout).
  - reflexivity.
  - vm_compute. reflexivity.
  - vm_compute. reflexivity.
  - vm_compute. reflexivity.
  - eexists w', _. split; [exact Hrun|].
    apply Hout; [repeat constructor | reflexivity].
Defined.

(** * The fractions a job reports *)

Section Fractions.

(** The engine's reading of a line, and the two steps of it. *)
Lemma progress_of_line_update (duration_ms : option Q) (line : string) :
  progress_of_line duration_ms line = Returns (update_of_line line ≫= report duration_ms).
Proof.
  unfold progress_of_line, update_of_line.
  destruct (Py.partition "=" (Py.strip line)) as [[key value]|]; [|done].
  destruct (bool_decide_reflect (key = "out_time_us")) as [->|Hus]; simpl.
  { destruct (known duration_ms) eqn:Hk.
    - destruct (Py.int value) as [us|]; [|done]. simpl.
      destruct (fraction_known (Qdiv (inject_Z us) (inject_Z 1000)) _ Hk)
        as (d & -> & Hd & ->).
      simpl. by rewrite Hd.
    - destruct (Py.int value) as [us|]; [|done]. simpl.
      destruct duration_ms as [d|]; [|done]. simpl in Hk. by rewrite Hk. }
  destruct (bool_decide_reflect (key = "out_time")) as [->|Hot]; simpl.
  { destruct (known duration_ms) eqn:Hk.
    - destruct (Py.split ":" value) as [|p0 [|p1 [|p2 [|]]]]; try done.
      destruct (Py.int p0) as [hours|]; [|done].
      destruct (Py.int p1) as [minutes|]; [|done].
      destruct (Py.float p2) as [seconds|]; [|done]. simpl.
      match goal with |- fraction ?ms _ = _ =>
        destruct (fraction_known ms _ Hk) as (d & -> & Hd & ->) end.
      simpl. by rewrite Hd.
    - destruct (Py.split ":" value) as [|p0 [|p1 [|p2 [|]]]]; try done.
      destruct (Py.int p0) as [hours|]; [|done].
      destruct (Py.int p1) as [minutes|]; [|done].
      destruct (Py.float p2) as [seconds|]; [|done]. simpl.
      destruct duration_ms as [d|]; [|done]. simpl in Hk. by rewrite Hk. }
  by destruct (bool_decide (key = "progress") && bool_decide (value = "end")).
Qed.

Lemma line_values_update (duration_ms : option Q) (ev : read_event) :
  line_values duration_ms ev = option_list (update_of_event ev ≫= report duration_ms).
Proof.
  destruct ev as [s| |e]; [|done..]. unfold line_values, update_of_event.
  rewrite progress_of_line_update.
  by destruct (update_of_line (s +:+ Py.nl) ≫= report duration_ms).
Qed.

Lemma all_values_updates (duration_ms : option Q) (script : list read_event) :
  concat (line_values duration_ms <$> script)
  = omap (report duration_ms) (omap update_of_event script).
Proof.
  induction script as [|ev script IH]; [done|].
  rewrite fmap_cons. cbn [concat]. rewrite IH, line_values_update. simpl.
  destruct (update_of_event ev) as [u|]; simpl; [|done].
  by destruct (report duration_ms u).
Qed.


(** [min(q, 1.0)] and the division by a positive duration keep the order. *)
Lemma min_le_one (q : Q) : Qle (Py.min q (inject_Z 1)) (inject_Z 1).
Proof. unfold Py.min. destruct (Qlt_le_dec _ _); [apply Qle_refl | done]. Qed.

Lemma min_mono (a b : Q) :
  Qle a b → Qle (Py.min a (inject_Z 1)) (Py.min b (inject_Z 1)).
Proof.
  unfold Py.min. intros Hab.
  destruct (Qlt_le_dec (inject_Z 1) a) as [Ha|Ha], (Qlt_le_dec (inject_Z 1) b) as [Hb|Hb].
  - apply Qle_refl.
  - exfalso. apply (Qlt_irrefl (inject_Z 1)).
    eapply Qlt_le_trans; [exact Ha|]. by eapply Qle_trans.
  - done.
  - done.
Qed.

Lemma min_nonneg (a : Q) : Qle (inject_Z 0) a → Qle (inject_Z 0) (Py.min a (inject_Z 1)).
Proof. unfold Py.min. intros Ha. by destruct (Qlt_le_dec _ _). Qed.

Lemma div_mono (d a b : Q) : Qlt (inject_Z 0) d → Qle a b → Qle (Qdiv a d) (Qdiv b d).
Proof.
  intros Hd Hab. unfold Qdiv. apply Qmult_le_compat_r; [done|].
  apply Qlt_le_weak. by apply Qinv_lt_0_compat.
Qed.

Lemma div_nonneg (d a : Q) :
  Qlt (inject_Z 0) d → Qle (inject_Z 0) a → Qle (inject_Z 0) (Qdiv a d).
Proof.
  intros Hd Ha. unfold Qdiv. apply Qmult_le_0_compat; [done|].
  apply Qlt_le_weak. by apply Qinv_lt_0_compat.
Qed.

Lemma reported_le_one (d : Q) (u : update) : Qle (reported d u) (inject_Z 1).
Proof. destruct u; simpl; [apply min_le_one | apply Qle_refl]. Qed.

Lemma report_le_one (duration_ms : option Q) (u : update) (v : Q) :
  report duration_ms u = Some v → Qle v (inject_Z 1).
Proof.
  destruct u as [ms|]; simpl.
  - destruct duration_ms as [d|]; [|done]. destruct (Py.truthy d); [|done].
    intros [= <-]. apply min_le_one.
  - intros [= <-]. apply Qle_refl.
Qed.

Lemma orderly_prefix (prev : Q) (us1 us2 : list update) :
  orderly prev (us1 ++ us2) → orderly prev us1.
Proof.
  revert prev. induction us1 as [|[ms|] us1 IH]; intros prev; simpl; [done| |].
  - intros [? ?]. split; [done|]. by apply IH.
  - by intros [? _]%Forall_app.
Qed.

(** An orderly stream read against a positive duration gives fractions that
    never go back and stay between the fraction of [prev] and 1. *)
Lemma orderly_sorted (d prev : Q) (us : list update) :
  Qlt (inject_Z 0) d → orderly prev us →
  StronglySorted Qle (reported d <$> us)
  ∧ Forall (λ v, Qle (Py.min (Qdiv prev d) (inject_Z 1)) v) (reported d <$> us).
Proof.
  intros Hd. revert prev. induction us as [|[ms|] us IH]; intros prev Ho;
    rewrite ?fmap_cons; simpl in Ho.
  - split; constructor.
  - destruct Ho as [Hle Ho]. destruct (IH ms Ho) as [Hs Hall].
    split.
    + constructor; [done|]. done.
    + constructor; [by apply min_mono, div_mono|].
      eapply Forall_impl; [exact Hall|]. intros v Hv. cbv beta in Hv.
      eapply Qle_trans; [|exact Hv]. by apply min_mono, div_mono.
  - assert (reported d <$> us = replicate (length us) (inject_Z 1)) as ->.
    { clear IH. induction Ho as [|u us -> _ IH']; [done|].
      rewrite fmap_cons, IH'. done. }
    split.
    + constructor.
      * induction (length us); simpl; constructor; [done|].
        apply Forall_replicate, Qle_refl.
      * apply Forall_replicate, Qle_refl.
    + constructor; [apply min_le_one|]. apply Forall_replicate, min_le_one.
Qed.

(** Without a duration only the ends are reported. *)
Lemma report_unknown (us : list update) :
  Forall (λ v, v = inject_Z 1) (omap (report None) us).
Proof.
  induction us as [|[ms|] us IH]; simpl; [constructor | done | by constructor].
Qed.

Lemma all_ones_sorted (l : list Q) :
  Forall (λ v, v = inject_Z 1) l →
  StronglySorted Qle l ∧ Forall (λ v, Qle (inject_Z 0) v) l.
Proof.
  induction 1 as [|v l -> Hl [IH1 IH2]]; [split; constructor|].
  split; constructor; try done.
  eapply Forall_impl; [exact Hl|]. by intros ? ->.
Qed.

Lemma report_known (d : Q) (us : list update) :
  Py.truthy d = true → omap (report (Some d)) us = reported d <$> us.
Proof.
  intros Hd. induction us as [|[ms|] us IH]; simpl; [done | |].
  - rewrite Hd. simpl. f_equal. exact IH.
  - f_equal. exact IH.
Qed.


(** What the handlers store for a row. *)
Lemma on_progress_updated_lookup (audio_items : list AudioItem) (row r : nat) (p : Q)
    (item : AudioItem) :
  audio_items !! row = Some item →
  ∃ item', on_progress_updated audio_items r p !! row = Some item'
    ∧ status item' = status item
    ∧ progress item' = if decide (r = row) then p else progress item.
Proof.
  intros Hrow. unfold on_progress_updated.
  destruct (decide (r = row)) as [->|Hne].
  - rewrite Hrow. eexists. rewrite list_lookup_insert_eq by by eapply lookup_lt_Some.
    done.
  - exists item. destruct (audio_items !! r); [by rewrite list_lookup_insert_ne|done].
Qed.

Lemma on_status_updated_lookup (audio_items : list AudioItem) (row r : nat) (st : string)
    (item : AudioItem) :
  audio_items !! row = Some item →
  ∃ item', on_status_updated audio_items r st !! row = Some item'
    ∧ status item' = (if decide (r = row) then st else status item)
    ∧ progress item' = progress item.
Proof.
  intros Hrow. unfold on_status_updated.
  destruct (decide (r = row)) as [->|Hne].
  - rewrite Hrow. eexists. rewrite list_lookup_insert_eq by by eapply lookup_lt_Some.
    done.
  - exists item. destruct (audio_items !! r); [by rewrite list_lookup_insert_ne|done].
Qed.

Lemma on_conversion_completed_lookup (audio_items : list AudioItem) (row r : nat)
    (ok : bool) (out err : string) (item : AudioItem) :
  audio_items !! row = Some item →
  ∃ item', on_conversion_completed audio_items r ok out err !! row = Some item'
    ∧ status item' = status item ∧ progress item' = progress item.
Proof.
  intros Hrow. unfold on_conversion_completed.
  destruct (decide (r = row)) as [->|Hne].
  - rewrite Hrow. destruct ok; eexists;
      rewrite list_lookup_insert_eq by (by eapply lookup_lt_Some); done.
  - exists item. destruct (audio_items !! r); [|done].
    by destruct ok; rewrite list_lookup_insert_ne.
Qed.

Lemma default_last_cons {A} (a x : A) (l : list A) :
  default a (last (x :: l)) = default x (last l).
Proof. rewrite last_cons. by destruct (last l). Qed.

(** After the signals are delivered a row holds the last fraction and the
    last status that were emitted for it. *)
Lemma deliver_row (row : nat) (evs : list event) (audio_items : list AudioItem)
    (item : AudioItem) :
  audio_items !! row = Some item →
  ∃ item', foldl deliver audio_items evs !! row = Some item'
    ∧ progress item' = default (progress item) (last (fractions row evs))
    ∧ status item' = default (status item) (last (statuses row evs)).
Proof.
  revert audio_items item. induction evs as [|e evs IH]; intros audio_items item Hrow.
  { by exists item. }
  assert (∃ item1, deliver audio_items e !! row = Some item1
            ∧ default (progress item) (last (fractions row (e :: evs)))
              = default (progress item1) (last (fractions row evs))
            ∧ default (status item) (last (statuses row (e :: evs)))
              = default (status item1) (last (statuses row evs)))
    as (item1 & Hrow1 & Hp & Hs).
  { destruct e as [[r p|r st|r ok out err|]|r a]; simpl.
    - destruct (on_progress_updated_lookup audio_items row r p item Hrow)
        as (item1 & H1 & Hst & Hpr).
      exists item1. split; [done|]. rewrite Hst, Hpr.
      destruct (decide (r = row)); [|done]. split; [|done]. apply default_last_cons.
    - destruct (on_status_updated_lookup audio_items row r st item Hrow)
        as (item1 & H1 & Hst & Hpr).
      exists item1. split; [done|]. rewrite Hst, Hpr.
      destruct (decide (r = row)); [|done]. split; [done|]. apply default_last_cons.
    - destruct (on_conversion_completed_lookup audio_items row r ok out err item Hrow)
        as (item1 & H1 & Hst & Hpr).
      exists item1. by rewrite Hst, Hpr.
    - by exists item.
    - by exists item. }
  destruct (IH _ _ Hrow1) as (item' & Hrow' & Hp' & Hs').
  exists item'. split; [exact Hrow'|]. by rewrite Hp, Hs.
Qed.

Lemma fractions_app row evs1 evs2 :
  fractions row (evs1 ++ evs2) = fractions row evs1 ++ fractions row evs2.
Proof. apply omap_app. Qed.

Lemma statuses_app row evs1 evs2 :
  statuses row (evs1 ++ evs2) = statuses row evs1 ++ statuses row evs2.
Proof. apply omap_app. Qed.

Lemma fractions_relay row (t : list action) : fractions row (relay row <$> t) = callbacks t.
Proof.
  induction t as [|a t IH]; [done|].
  destruct a; simpl; try exact IH. unfold fractions, callbacks in *. simpl.
  rewrite decide_True by done. f_equal. exact IH.
Qed.

Lemma statuses_relay row (t : list action) : statuses row (relay row <$> t) = [].
Proof. induction t as [|a t IH]; [done|]. by destruct a. Qed.

Lemma fractions_finished row cancelled result :
  fractions row (finished row cancelled result) = [].
Proof. unfold finished. by destruct cancelled, (success result). Qed.

Lemma statuses_finished row cancelled result :
  statuses row (finished row cancelled result)
  = [if cancelled then STATUS_CANCELLED
     else if success result then STATUS_COMPLETED else STATUS_ERROR].
Proof.
  unfold finished, statuses.
  destruct cancelled; [|destruct (success result)]; simpl; by rewrite decide_True.
Qed.


Lemma duration_ms_positive (duration : option Q) (d : Q) :
  duration_ms_of duration = Some d →
  (∀ x, duration = Some x → Qle (inject_Z 0) x) →
  Qlt (inject_Z 0) d.
Proof.
  unfold duration_ms_of. destruct duration as [x|]; [|done].
  destruct (Py.truthy x) eqn:Hx; [|done]. intros [= <-] Hpos.
  specialize (Hpos x eq_refl).
  apply Qle_lt_or_eq in Hpos as [Hlt|Heq].
  - apply Qmult_lt_0_compat; [done|reflexivity].
  - exfalso. unfold Py.truthy in Hx. apply negb_true_iff in Hx.
    apply not_true_iff_false in Hx. apply Hx, Qeq_bool_iff. by symmetry.
Qed.

Context (sys : platform) (env : job_env).
Context (audio_path cover_image_path output_path : string) (cancel_check : bool).
Context (resolution : Z * Z) (fps : Z) (video_bitrate audio_bitrate : string).

(** The values of a call, as updates of the lines it read. *)
Lemma convert_fractions (w w' : world) r t :
  convert_audio_to_video sys env audio_path cover_image_path output_path
    true cancel_check resolution fps video_bitrate audio_bitrate w = (r, w', t) →
  callbacks t = []
  ∨ ∃ duration probed n,
      get_audio_duration sys env (fs w) audio_path = (Returns duration, probed)
      ∧ callbacks t = omap (report (duration_ms_of duration))
                        (omap update_of_event (take n (stdout_script env)))
      ∧ (AWait None ∈ t → n = length (stdout_script env)).
Proof.
  intros H.
  destruct (get_audio_duration sys env (fs w) audio_path) as [[duration|e] probed] eqn:Hp.
  - right. destruct (convert_callbacks _ _ _ _ _ _ _ _ _ _ _ _ _ _ _ _ H Hp)
      as (n & _ & Hcb & Hall).
    exists duration, probed, n. split; [done|]. split; [|done].
    by rewrite Hcb, all_values_updates.
  - left. apply convert_inv in H.
    destruct H as [(msg & _ & _ & -> & _)|(_ & _ & _ & cmds & H)]; [done|].
    destruct H as [(e' & _ & _ & _ & ->)|(duration & cmd & Hp' & _)]; [|congruence].
    by destruct (runs_quiet cmds) as (_ & _ & _ & ?).
Qed.

(** A successful call has read the whole stream. *)
Lemma convert_success_fractions (w w' : world) result t :
  convert_audio_to_video sys env audio_path cover_image_path output_path
    true cancel_check resolution fps video_bitrate audio_bitrate w
    = (Returns result, w', t) →
  success result = true →
  ∃ duration,
    callbacks t = omap (report (duration_ms_of duration))
                    (omap update_of_event (stdout_script env)).
Proof.
  intros H Hs. apply convert_inv in H.
  destruct H as [(msg & [= ->] & _)|(_ & _ & _ & cmds & H)]; [done|].
  destruct H as [(e & _ & ? & _)|(duration & cmd & _ & H)]; [done|].
  destruct H as [(e & _ & [= ->] & _)|[(e & _ & _ & [= ->] & _)|H]].
  { unfold handler in Hs. by destruct (class e). }
  { unfold handler in Hs. by destruct (class e). }
  destruct H as (e & tl & _ & _ & Hl & [= ->] & ->).
  apply poll_loop_spec in Hl as (n & _ & Hcb & _ & Hend).
  destruct e as [| |ex]; simpl in *.
  - destruct Hend as (-> & _). exists duration.
    destruct (runs_quiet cmds) as (_ & _ & _ & Hq).
    rewrite firstn_all, all_values_updates in Hcb.
    change (AMkdir ?d :: APopen ?c :: ?l) with ([AMkdir d; APopen c] ++ l).
    rewrite !callbacks_app, Hq, Hcb. simpl. by rewrite app_nil_r.
  - done.
  - unfold handler in Hs. by destruct (class ex).
Qed.

Lemma statuses_status row st : statuses row [Emit (status_updated row st)] = [st].
Proof. unfold statuses. simpl. by rewrite decide_True. Qed.

End Fractions.




(** * The start of a batch *)

(** Two items that may be started and have the same stem are given the same
    output path: nothing is created on disk between the two calls of
    [get_unique_output_path], so the second call answers as the first. *)
Lemma prepare_same_stem (fuel : nat) (s : gset string) (cover output_folder : string)
    (row : nat) (i1 i2 : AudioItem) (p : string) :
  restartable i1 = true → restartable i2 = true →
  stem (file_path i1) = stem (file_path i2) →
  get_unique_output_path fuel s output_folder (stem (file_path i1)) ".mpg" = Some p →
  prepare fuel s cover output_folder row [i1; i2]
  = Some ([(row, file_path i1, cover, p); (S row, file_path i2, cover, p)],
          [reset i1; reset i2]).
Proof.
  intros H1 H2 Hstem Hp. simpl. rewrite H1, H2, <-Hstem, Hp. done.
Qed.

(** C9 does not hold of the code.  Two queued files with the same stem, in a
    batch started on an output folder that holds neither name: both jobs are
    given [/out/track.mpg], so the paths of the batch are not pairwise
    distinct. *)
Theorem same_stem_same_output_path :
  ∃ items audio_items,
    start_conversion 1 (fs Scenario.quiet) true (Some "/music/cover.png") "/out"
      Scenario.same_stem = Some (Started items audio_items)
    ∧ items = [(0%nat, "/music/a/track.mp3", "/music/cover.png", "/out/track.mpg");
               (1%nat, "/music/b/track.mp3", "/music/cover.png", "/out/track.mpg")]
    ∧ ¬ NoDup (snd <$> items).
Proof.
  eexists _, _. split; [vm_compute; reflexivity|]. split; [reflexivity|].
  intros Hnd. apply NoDup_cons in Hnd as [Hnotin _]. apply Hnotin. by left.
Qed.

(** * More on the engine *)

Section EngineMore.

Context (env : job_env) (output_path : string).

(** The loop without a [cancel_check] only reads and reports, and leaves the
    world as it is. *)
Lemma poll_loop_unchecked (progress_callback : bool) (duration_ms : option Q)
    (script : list read_event) (w : world) e w' t :
  poll_loop env output_path progress_callback false duration_ms script w = (e, w', t) →
  w' = w ∧ e ≠ Cancelled
  ∧ Forall (λ a, a = AReadline ∨ ∃ p, a = ACallback p) t.
Proof.
  revert e w' t. induction script as [|ev rest IH]; intros e w' t H;
    rewrite poll_loop_unfold in H; simpl in H.
  - injection H as <- <- <-. split_and!; [done..|]. repeat constructor.
  - destruct ev as [s| |ex].
    + destruct (progress_of_line_returns duration_ms (s +:+ Py.nl)) as [v Hv].
      rewrite Hv in H.
      destruct (poll_loop env output_path progress_callback false duration_ms rest w)
        as [[r w2] t2] eqn:Hrest.
      injection H as <- <- <-.
      destruct (IH _ _ _ eq_refl) as (-> & Hne & Hall).
      split_and!; [done..|]. constructor; [by left|].
      apply Forall_app. split; [|done].
      destruct progress_callback; [destruct v|];
        [constructor; [right; by eexists|constructor] | constructor..].
    + destruct (poll_loop env output_path progress_callback false duration_ms rest w)
        as [[r w2] t2] eqn:Hrest.
      injection H as <- <- <-.
      destruct (IH _ _ _ eq_refl) as (-> & Hne & Hall).
      split_and!; [done..|]. constructor; [by left|done].
    + injection H as <- <- <-. split_and!; [done..|]. repeat constructor.
Qed.

(** How the loop ends, the world it leaves and what it does apart from the
    reports depend neither on the callback nor on the duration. *)
Lemma poll_loop_observers (pcb pcb' cancel_check : bool) (dms dms' : option Q)
    (script : list read_event) (w : world) :
  (poll_loop env output_path pcb cancel_check dms script w).1
  = (poll_loop env output_path pcb' cancel_check dms' script w).1
  ∧ silent (poll_loop env output_path pcb cancel_check dms script w).2
    = silent (poll_loop env output_path pcb' cancel_check dms' script w).2.
Proof.
  revert w. induction script as [|ev rest IH]; intros w; rewrite !poll_loop_unfold;
    destruct (check_cancel cancel_check w) as [[b w1] ch] eqn:Hc; destruct b;
    cbv beta iota;
    try (destruct (cancel_cleanup env output_path w1) as [wc tc]; done).
  destruct ev as [s| |ex].
  - destruct (progress_of_line_returns dms (s +:+ Py.nl)) as [v ->].
    destruct (progress_of_line_returns dms' (s +:+ Py.nl)) as [v' ->].
    specialize (IH w1).
    destruct (poll_loop env output_path pcb cancel_check dms rest w1) as [[r w2] t2].
    destruct (poll_loop env output_path pcb' cancel_check dms' rest w1) as [[r' w2'] t2'].
    simpl in *. destruct IH as [[= -> ->] Hs]. split; [done|].
    unfold silent in *. rewrite !omap_app. simpl. rewrite !omap_app, Hs.
    f_equal. f_equal. f_equal.
    by destruct pcb, pcb', v, v'.
  - specialize (IH w1).
    destruct (poll_loop env output_path pcb cancel_check dms rest w1) as [[r w2] t2].
    destruct (poll_loop env output_path pcb' cancel_check dms' rest w1) as [[r' w2'] t2'].
    simpl in *. destruct IH as [[= -> ->] Hs]. split; [done|].
    unfold silent in *. rewrite !omap_app. f_equal. simpl. f_equal. exact Hs.
  - done.
Qed.

End EngineMore.

Section ConversionMore.

Context (sys : platform) (env : job_env).
Context (audio_path cover_image_path output_path : string).
Context (resolution : Z * Z) (fps : Z) (video_bitrate audio_bitrate : string).

Lemma launched_fs (w : world) (p : string) :
  p ≠ output_path → p ∈ fs (launched env output_path w) ↔ p ∈ fs w.
Proof.
  intros Hne. unfold launched. destruct (creates_output env); [|done]. simpl.
  rewrite elem_of_union, elem_of_singleton. tauto.
Qed.

Lemma cancel_cleanup_other (w : world) (p : string) :
  p ≠ output_path → p ∈ fs (cancel_cleanup env output_path w).1 ↔ p ∈ fs w.
Proof.
  intros Hne. rewrite cancel_cleanup_fs.
  destruct (_ && _); [|done]. rewrite elem_of_difference, elem_of_singleton. tauto.
Qed.

Lemma prefixed_nonempty (c : ascii) (s t : string) : String c s +:+ t ≠ "".
Proof. done. Qed.

End ConversionMore.



(** X2. A result is well formed.  A success carries the output path and no
    message, the encoder has exited with code 0 and the output file exists;
    a failure carries no path and a message that is not empty, so the
    worker never has to fall back on its "unknown error" text. *)
Theorem result_is_well_formed
    (sys : platform) (env : job_env) (audio_path cover_image_path output_path : string)
    (progress_callback cancel_check : bool)
    (resolution : Z * Z) (fps : Z) (video_bitrate audio_bitrate : string)
    (w w' : world) (result : ConversionResult) (t : list action) :
  convert_audio_to_video sys env audio_path cover_image_path output_path
    progress_callback cancel_check resolution fps video_bitrate audio_bitrate w
    = (Returns result, w', t) →
  (success result = true →
     Converter.output_path result = Some output_path
     ∧ Converter.error_message result = None
     ∧ output_path ∈ fs w' ∧ exit_code env = 0)
  ∧ (success result = false →
     Converter.output_path result = None
     ∧ ∃ msg, Converter.error_message result = Some msg ∧ msg ≠ ""
         ∧ message_or_unknown (Converter.error_message result) = msg).
Proof.
  intros H.
  assert (∀ msg, msg ≠ "" →
            (success (failed msg) = true →
               Converter.output_path (failed msg) = Some output_path
               ∧ Converter.error_message (failed msg) = None
               ∧ output_path ∈ fs w' ∧ exit_code env = 0)
            ∧ (success (failed msg) = false →
               Converter.output_path (failed msg) = None
               ∧ ∃ m, Converter.error_message (failed msg) = Some m ∧ m ≠ ""
                   ∧ message_or_unknown (Converter.error_message (failed msg)) = m))
    as Hfailed.
  { intros msg Hmsg. split; [done|]. intros _. split; [done|].
    exists msg. split_and!; [done..|]. by destruct msg. }
  assert (∀ e, ∃ msg, handler e = failed msg ∧ msg ≠ "") as Hhandler.
  { intros e. unfold handler. destruct (class e); by eexists. }
  destruct (exists_ (fs w) (get_ffmpeg_path sys (fs w))) eqn:E1; cycle 1.
  { unfold convert_audio_to_video in H. rewrite E1 in H. simpl in H.
    injection H as <- <- <-. by apply Hfailed. }
  destruct (exists_ (fs w) audio_path) eqn:E2; cycle 1.
  { unfold convert_audio_to_video in H. rewrite E1, E2 in H. simpl in H.
    injection H as <- <- <-. by apply Hfailed. }
  destruct (exists_ (fs w) cover_image_path) eqn:E3; cycle 1.
  { unfold convert_audio_to_video in H. rewrite E1, E2, E3 in H. simpl in H.
    injection H as <- <- <-. by apply Hfailed. }
  apply convert_inv in H.
  destruct H as [(msg & _ & _ & _ & Hmiss)|(H1 & H2 & H3 & cmds & H)].
  { apply exists_true in E1, E2, E3. tauto. }
  destruct H as [(e & _ & ? & _)|(duration & cmd & _ & H)]; [done|].
  destruct H as [(e & _ & [= ->] & _)|[(e & _ & _ & [= ->] & _)|H]].
  { destruct (Hhandler e) as (msg & -> & Hmsg). by apply Hfailed. }
  { destruct (Hhandler e) as (msg & -> & Hmsg). by apply Hfailed. }
  destruct H as (e & tl & _ & _ & Hl & [= ->] & _).
  destruct e as [| |ex]; simpl.
  - unfold exit_result.
    destruct (bool_decide_reflect (exit_code env = 0)) as [Hc|Hc].
    + destruct (exists_ (fs w') output_path) eqn:Hex; [|by apply Hfailed].
      split; [|done]. intros _. split_and!; [done..|by apply exists_true|done].
    + by apply Hfailed.
  - by apply Hfailed.
  - destruct (Hhandler ex) as (msg & -> & Hmsg). by apply Hfailed.
Qed.

Lemma result_is_well_formed_witness :
  ∃ result w' t,
    convert_audio_to_video Scenario.linux Scenario.encoder
      "/music/a.mp3" "/music/cover.png" "/out/a.mpg" true true
      default_resolution default_fps default_video_bitrate default_audio_bitrate
      Scenario.quiet = (Returns result, w', t)
    ∧ (success result = true →
         Converter.output_path result = Some "/out/a.mpg"
         ∧ Converter.error_message result = None
         ∧ "/out/a.mpg" ∈ fs w' ∧ exit_code Scenario.encoder = 0)
    ∧ (success result = false →
         Converter.output_path result = None
         ∧ ∃ msg, Converter.error_message result = Some msg ∧ msg ≠ ""
             ∧ message_or_unknown (Converter.error_message result) = msg).
Proof.
  eexists _, _, _. split; [vm_compute; reflexivity|].
  eapply (result_is_well_formed Scenario.linux Scenario.encoder
            "/music/a.mp3" "/music/cover.png" "/out/a.mpg" true true
            default_resolution default_fps default_video_bitrate default_audio_bitrate
            Scenario.quiet).
  vm_compute; reflexivity.
Defined.

(** The loop asks the machine for nothing the duration probe has a say in. *)
Lemma poll_loop_with_probe (env : job_env) (ffprobe ffmpeg : run_outcome)
    (output_path : string) (progress_callback cancel_check : bool)
    (duration_ms : option Q) (script : list read_event) (w : world) :
  poll_loop (with_probe env ffprobe ffmpeg) output_path progress_callback cancel_check
    duration_ms script w
  = poll_loop env output_path progress_callback cancel_check duration_ms script w.
Proof.
  revert w. induction script as [|ev rest IH]; intros w; rewrite !poll_loop_unfold;
    destruct (check_cancel cancel_check w) as [[b w1] ch]; destruct b; try done.
  destruct ev as [s| |ex]; [|by rewrite IH|done].
  destruct (progress_of_line duration_ms (s +:+ Py.nl)); [|done]. by rewrite IH.
Qed.



(** X4. Called without a [cancel_check], the engine never reads the flag and
    never gives up a job: it does not terminate or kill the encoder, deletes
    no file, so that every file on the disk is still there afterwards, and
    its result is never the cancelled one. *)
Theorem no_cancel_check_never_cancels
    (sys : platform) (env : job_env) (audio_path cover_image_path output_path : string)
    (progress_callback : bool)
    (resolution : Z * Z) (fps : Z) (video_bitrate audio_bitrate : string)
    (w w' : world) (r : outcome ConversionResult) (t : list action) :
  convert_audio_to_video sys env audio_path cover_image_path output_path
    progress_callback false resolution fps video_bitrate audio_bitrate w
    = (r, w', t) →
  cancel_in w' = cancel_in w ∧ fs w ⊆ fs w'
  ∧ r ≠ Returns (failed "Conversão cancelada pelo usuário")
  ∧ Forall (λ a, a ≠ ATerminate ∧ a ≠ AKill
                 ∧ (∀ answer, a ≠ ACancelCheck answer) ∧ (∀ p, a ≠ AUnlink p)) t.
Proof.
  intros H.
  assert (∀ cmds : list (list string),
            Forall (λ a, a ≠ ATerminate ∧ a ≠ AKill
                         ∧ (∀ answer, a ≠ ACancelCheck answer) ∧ (∀ p, a ≠ AUnlink p))
                   (ARun <$> cmds)) as Hruns.
  { intros cmds. apply Forall_fmap, Forall_true. by intros cmd. }
  assert (∀ e, handler e ≠ failed "Conversão cancelada pelo usuário") as Hhandler.
  { intros e. unfold handler. by destruct (class e). }
  assert (fs w ⊆ fs (launched env output_path w)) as Hfs.
  { unfold launched. destruct (creates_output env); [|done]. simpl.
    apply union_subseteq_l. }
  destruct (exists_ (fs w) (get_ffmpeg_path sys (fs w))) eqn:E1; cycle 1.
  { unfold convert_audio_to_video in H. rewrite E1 in H. simpl in H.
    injection H as <- <- <-. by split_and!. }
  destruct (exists_ (fs w) audio_path) eqn:E2; cycle 1.
  { unfold convert_audio_to_video in H. rewrite E1, E2 in H. simpl in H.
    injection H as <- <- <-. by split_and!. }
  destruct (exists_ (fs w) cover_image_path) eqn:E3; cycle 1.
  { unfold convert_audio_to_video in H. rewrite E1, E2, E3 in H. simpl in H.
    injection H as <- <- <-. by split_and!. }
  apply convert_inv in H.
  destruct H as [(msg & _ & _ & _ & Hmiss)|(_ & _ & _ & cmds & H)].
  { apply exists_true in E1, E2, E3. tauto. }
  destruct H as [(e & _ & -> & -> & ->)|(duration & cmd & _ & H)];
    [by split_and!|].
  destruct H as [(e & _ & -> & -> & ->)|[(e & _ & _ & -> & -> & ->)|H]].
  { split_and!; [done..| |].
    - intros [= Heq]. by apply (Hhandler e).
    - apply Forall_app. split; [done|]. by repeat constructor. }
  { split_and!; [done..| |].
    - intros [= Heq]. by apply (Hhandler e).
    - apply Forall_app. split; [done|]. by repeat constructor. }
  destruct H as (e & tl & _ & _ & Hl & -> & ->).
  apply poll_loop_unchecked in Hl as (-> & Hne & Hall).
  split_and!; [by destruct (creates_output env) eqn:E; unfold launched; rewrite E|done| |].
  - destruct e as [| |ex]; [|done|].
    + simpl. unfold exit_result.
      destruct (bool_decide (exit_code env = 0)); [|done].
      by destruct (exists_ (fs (launched env output_path w)) output_path).
    + simpl. intros [= Heq]. by apply (Hhandler ex).
  - apply Forall_app. split; [done|].
    apply Forall_cons. split; [done|]. apply Forall_cons. split; [done|].
    apply Forall_app. split.
    + eapply Forall_impl; [exact Hall|]. intros a [->|[p ->]]; done.
    + destruct e as [| |ex]; [|done|]; by repeat constructor.
Qed.

Lemma no_cancel_check_never_cancels_witness :
  ∃ r w' t,
    convert_audio_to_video Scenario.linux Scenario.encoder
      "/music/a.mp3" "/music/cover.png" "/out/a.mpg" true false
      default_resolution default_fps default_video_bitrate default_audio_bitrate
      Scenario.soon_cancelled = (r, w', t)
    ∧ cancel_in w' = Some 2%nat ∧ fs Scenario.soon_cancelled ⊆ fs w'
    ∧ r ≠ Returns (failed "Conversão cancelada pelo usuário")
    ∧ Forall (λ a, a ≠ ATerminate ∧ a ≠ AKill
                   ∧ (∀ answer, a ≠ ACancelCheck answer) ∧ (∀ p, a ≠ AUnlink p)) t.
Proof.
  eexists _, _, _. split; [vm_compute; reflexivity|].
  eapply (no_cancel_check_never_cancels Scenario.linux Scenario.encoder
            "/music/a.mp3" "/music/cover.png" "/out/a.mpg" true
            default_resolution default_fps default_video_bitrate default_audio_bitrate
            Scenario.soon_cancelled).
  vm_compute; reflexivity.
Defined.

(** * The encoder process *)

Ltac isin :=
  match goal with
  | |- _ ∈ _ :: _ =>
      apply elem_of_cons; first [solve [left; reflexivity] | right; isin]
  | |- _ ∈ _ ++ _ => apply elem_of_app; first [solve [left; isin] | right; isin]
  end.

(** A loop that does not end in the cancellation branch has not terminated
    the process. *)
Lemma poll_loop_not_terminated (env : job_env) (output_path : string)
    (progress_callback cancel_check : bool) (duration_ms : option Q)
    (script : list read_event) (w : world) e w' t :
  poll_loop env output_path progress_callback cancel_check duration_ms script w
    = (e, w', t) →
  e ≠ Cancelled → ATerminate ∉ t.
Proof.
  revert w e w' t. induction script as [|ev rest IH]; intros w e w' t H Hne;
    rewrite poll_loop_unfold in H;
    destruct (check_cancel cancel_check w) as [[b w1] ch] eqn:Hc;
    apply check_cancel_trace in Hc as Hch;
    assert (ATerminate ∉ ch) as Hq by (destruct Hch as [[_ ->]|(_ & _ & ->)]; notin);
    clear Hch; destruct b; cbv beta iota in H.
  1, 3: destruct (cancel_cleanup env output_path w1); by injection H as <- <- <-.
  - injection H as <- <- <-. notin.
  - destruct ev as [s| |ex].
    + destruct (progress_of_line_returns duration_ms (s +:+ Py.nl)) as [v Hv].
      rewrite Hv in H.
      destruct (poll_loop env output_path progress_callback cancel_check duration_ms rest w1)
        as [[r w2] t2] eqn:Hrest.
      injection H as <- <- <-. specialize (IH _ _ _ _ Hrest Hne).
      rewrite not_elem_of_app, not_elem_of_cons, not_elem_of_app.
      split_and!; [done|done| |done].
      destruct progress_callback; [destruct v|]; notin.
    + destruct (poll_loop env output_path progress_callback cancel_check duration_ms rest w1)
        as [[r w2] t2] eqn:Hrest.
      injection H as <- <- <-. specialize (IH _ _ _ _ Hrest Hne).
      rewrite not_elem_of_app, not_elem_of_cons.
      split_and!; [done|done..].
    + injection H as <- <- <-. notin.
Qed.



(** * More on the duration probe *)

Lemma digit_range (c : ascii) (d : Z) : Py.digit c = Some d → 0 ≤ d ≤ 9.
Proof.
  unfold Py.digit. destruct (_ && _) eqn:E; [|done]. intros [= <-].
  apply andb_prop in E as [E1 E2].
  apply Nat.leb_le in E1, E2. lia.
Qed.

Lemma two_digits_range (s r : string) (n : Z) :
  two_digits s = Some (n, r) → 0 ≤ n ≤ 99.
Proof.
  destruct s as [|a [|b s]]; [done..|]. simpl.
  destruct (Py.digit a) as [x|] eqn:Ea; [|done].
  destruct (Py.digit b) as [y|] eqn:Eb; [|done]. simpl. intros [= <- _].
  apply digit_range in Ea, Eb. lia.
Qed.

Lemma match_duration_range (s : string) (hours minutes seconds centiseconds : Z) :
  match_duration s = Some (hours, minutes, seconds, centiseconds) →
  0 ≤ hours ≤ 99 ∧ 0 ≤ minutes ≤ 99 ∧ 0 ≤ seconds ≤ 99 ∧ 0 ≤ centiseconds ≤ 99.
Proof.
  unfold match_duration. intros H.
  destruct (drop_prefix "Duration: " s) as [s0|]; [|done]. simpl in H.
  destruct (two_digits s0) as [[h s1]|] eqn:Eh; [|done]. simpl in H.
  destruct (expect ":" s1) as [s2|]; [|done]. simpl in H.
  destruct (two_digits s2) as [[m s3]|] eqn:Em; [|done]. simpl in H.
  destruct (expect ":" s3) as [s4|]; [|done]. simpl in H.
  destruct (two_digits s4) as [[sec s5]|] eqn:Es; [|done]. simpl in H.
  destruct (expect "." s5) as [s6|]; [|done]. simpl in H.
  destruct (two_digits s6) as [[c s7]|] eqn:Ec; [|done]. simpl in H.
  injection H as <- <- <- <-.
  apply two_digits_range in Eh, Em, Es, Ec. lia.
Qed.

Lemma search_duration_match (s : string) (m : Z * Z * Z * Z) :
  search_duration s = Some m → ∃ s', match_duration s' = Some m.
Proof.
  induction s as [|c s IH]; cbn [search_duration].
  - destruct (match_duration "") eqn:E; [|done]. intros [= <-]. by eexists.
  - destruct (match_duration (String c s)) eqn:E; [intros [= <-]; by eexists|done].
Qed.

(** X6. The fallback of the duration probe reports whole hundredths of a
    second between 0 and 99:99:99.99: a duration it returns is never
    negative, and an input of a hundred hours or more has no duration. *)
Theorem fallback_duration_in_range
    (sys : platform) (env : job_env) (s : gset string) (audio_path : string)
    (d : Q) (t : list action) :
  get_audio_duration_ffmpeg sys env s audio_path = (Returns (Some d), t) →
  ∃ hundredths : Z,
    0 ≤ hundredths < 36244000 ∧ d = Qplus (inject_Z (hundredths / 100))
                                          (Qdiv (inject_Z (hundredths mod 100)) (inject_Z 100))
    ∧ Qle (inject_Z 0) d ∧ Qlt d (inject_Z 362440).
Proof.
  unfold get_audio_duration_ffmpeg.
  destruct (negb _); [done|].
  destruct (ffmpeg_probe_run env) as [e|code out err].
  { by destruct (class e). }
  destruct (search_duration err) as [[[[h m] sec] c]|] eqn:E; [|done].
  intros [= <- _].
  apply search_duration_match in E as [s' E].
  apply match_duration_range in E as (Hh & Hm & Hs & Hc).
  exists ((h * 3600 + m * 60 + sec) * 100 + c).
  replace (((h * 3600 + m * 60 + sec) * 100 + c) / 100) with (h * 3600 + m * 60 + sec)
    by (apply Z.div_unique with c; lia).
  replace (((h * 3600 + m * 60 + sec) * 100 + c) mod 100) with c
    by (apply Z.mod_unique with (h * 3600 + m * 60 + sec); lia).
  split_and!; [lia..|done| |].
  - unfold Qle, Qplus, Qdiv, Qmult, Qinv, inject_Z. simpl. lia.
  - unfold Qlt, Qplus, Qdiv, Qmult, Qinv, inject_Z. simpl. lia.
Qed.

Lemma fallback_duration_in_range_witness :
  ∃ d t,
    get_audio_duration_ffmpeg Scenario.linux
      (with_probe Scenario.encoder (RunReturns 1 "" "")
         (RunReturns 1 "" "  Duration: 00:03:25.48, start: 0.000000, bitrate: 128 kb/s"))
      Scenario.disk "/music/a.mp3" = (Returns (Some d), t)
    ∧ ∃ hundredths : Z,
        0 ≤ hundredths < 36244000
        ∧ d = Qplus (inject_Z (hundredths / 100))
                    (Qdiv (inject_Z (hundredths mod 100)) (inject_Z 100))
        ∧ Qle (inject_Z 0) d ∧ Qlt d (inject_Z 362440).
Proof.
  eexists _, _. split; [vm_compute; reflexivity|].
  eapply (fallback_duration_in_range Scenario.linux
            (with_probe Scenario.encoder (RunReturns 1 "" "")
               (RunReturns 1 "" "  Duration: 00:03:25.48, start: 0.000000, bitrate: 128 kb/s"))
            Scenario.disk "/music/a.mp3").
  vm_compute; reflexivity.
Defined.

(** * More on the start of a batch *)

Lemma get_unique_output_path_fresh (fuel : nat) (s : gset string)
    (output_folder base_name extension p : string) :
  get_unique_output_path fuel s output_folder base_name extension = Some p → p ∉ s.
Proof.
  unfold get_unique_output_path.
  destruct (exists_ s _) eqn:E; simpl.
  - intros H. by apply probe_counter_Some in H as (k & _ & _ & Hp & _).
  - intros [= <-]. by apply exists_false.
Qed.

Section Start.

Context (fuel : nat) (s : gset string) (cover output_folder : string).

(** What [start_conversion] puts in the place of an item. *)
Local Abbreviation restarted :=
  (λ item : AudioItem, if restartable item then reset item else item).

Lemma prepare_shape (row : nat) (audio_items : list AudioItem)
    (items : list work_item) (audio_items' : list AudioItem) :
  prepare fuel s cover output_folder row audio_items = Some (items, audio_items') →
  audio_items' = restarted <$> audio_items
  ∧ (∀ r a c o, (r, a, c, o) ∈ items ↔
       ∃ i item, r = (row + i)%nat ∧ audio_items !! i = Some item
         ∧ restartable item = true ∧ a = file_path item ∧ c = cover
         ∧ get_unique_output_path fuel s output_folder (stem (file_path item)) ".mpg"
           = Some o)
  ∧ StronglySorted lt ((λ it : work_item, it.1.1.1) <$> items)
  ∧ Forall (λ it : work_item, (row ≤ it.1.1.1)%nat) items.
Proof.
  revert row items audio_items'.
  induction audio_items as [|item rest IH]; intros row items audio_items' H.
  - injection H as <- <-. split_and!; [done| |constructor|constructor].
    intros r a c o. split; [by intros ?%elem_of_nil|].
    by intros (i & it & _ & ? & _).
  - cbn [prepare] in H.
    destruct (restartable item) eqn:Hr.
    + destruct (get_unique_output_path fuel s output_folder (stem (file_path item)) ".mpg")
        as [p|] eqn:Hp; [|done].
      cbn [mbind option_bind] in H.
      destruct (prepare fuel s cover output_folder (S row) rest) as [[its rest']|] eqn:Hrest;
        [|done].
      cbn [mbind option_bind] in H. injection H as <- <-.
      destruct (IH _ _ _ Hrest) as (-> & Hin & Hsorted & Hge).
      split_and!.
      * rewrite fmap_cons, Hr. done.
      * intros r a c o. rewrite elem_of_cons, Hin. split.
        -- intros [[= -> -> -> ->]|(i & it & -> & Hi & Hrt & Ha & Hc & Ho)].
           ++ exists 0%nat, item. split_and!; first [lia|done].
           ++ exists (S i), it. split_and!; first [lia|done].
        -- intros ([|i] & it & -> & Hi & Hrt & -> & -> & Ho).
           ++ left. injection Hi as <-. rewrite Hp in Ho. injection Ho as <-.
              by rewrite Nat.add_0_r.
           ++ right. exists i, it. split_and!; first [lia|done].
      * rewrite fmap_cons. constructor; [done|].
        apply Forall_fmap. eapply Forall_impl; [exact Hge|]. intros it Hit. simpl in *. lia.
      * constructor; [simpl; lia|].
        eapply Forall_impl; [exact Hge|]. intros it Hit. simpl in *. lia.
    + destruct (prepare fuel s cover output_folder (S row) rest) as [[its rest']|] eqn:Hrest;
        [|done].
      cbn [mbind option_bind] in H. injection H as <- <-.
      destruct (IH _ _ _ Hrest) as (-> & Hin & Hsorted & Hge).
      split_and!.
      * rewrite fmap_cons, Hr. done.
      * intros r a c o. rewrite Hin. split.
        -- intros (i & it & -> & Hi & Hrt & Ha & Hc & Ho).
           exists (S i), it. split_and!; first [lia|done].
        -- intros ([|i] & it & -> & Hi & Hrt & Ha & Hc & Ho).
           ++ injection Hi as <-. congruence.
           ++ exists i, it. split_and!; first [lia|done].
      * done.
      * eapply Forall_impl; [exact Hge|]. intros it Hit. simpl in *. lia.
Qed.

(** Without an item to restart the loop makes no call of
    [get_unique_output_path] and queues nothing. *)
Lemma prepare_nothing (row : nat) (audio_items : list AudioItem) :
  Forall (λ item, restartable item = false) audio_items →
  prepare fuel s cover output_folder row audio_items = Some ([], audio_items).
Proof.
  intros H. revert row. induction H as [|item rest Hr _ IH]; intros row; [done|].
  cbn [prepare]. rewrite Hr, IH. done.
Qed.

Lemma prepare_something (row : nat) (audio_items : list AudioItem)
    (audio_items' : list AudioItem) :
  prepare fuel s cover output_folder row audio_items = Some ([], audio_items') →
  Forall (λ item, restartable item = false) audio_items.
Proof.
  revert row audio_items'.
  induction audio_items as [|item rest IH]; intros row audio_items' H; [constructor|].
  cbn [prepare] in H. destruct (restartable item) eqn:Hr.
  - destruct (get_unique_output_path fuel s output_folder (stem (file_path item)) ".mpg");
      [|done].
    cbn [mbind option_bind] in H.
    by destruct (prepare fuel s cover output_folder (S row) rest) as [[its rest']|].
  - destruct (prepare fuel s cover output_folder (S row) rest) as [[its rest']|] eqn:Hrest;
      [|done].
    cbn [mbind option_bind] in H. injection H as -> <-.
    constructor; [done|]. by eapply IH.
Qed.

End Start.

(** X7. A batch that starts queues exactly the items whose status is Queued,
    Error or Cancelled, in the order of the table: each entry carries the
    row of its item, the item's file, the cover and the path that
    [get_unique_output_path] answers for the stem of the file, a path that
    is not on the disk.  These items are reset, the other ones (Converting,
    Completed) are left as they are, and no item changes its file. *)
Theorem start_conversion_queues_restartable
    (fuel : nat) (s : gset string) (folder_ok : bool) (cover_image_path : option string)
    (output_folder : string) (audio_items audio_items' : list AudioItem)
    (items : list work_item) :
  start_conversion fuel s folder_ok cover_image_path output_folder audio_items
    = Some (Started items audio_items') →
  audio_items' = (λ item, if restartable item then reset item else item) <$> audio_items
  ∧ file_path <$> audio_items' = file_path <$> audio_items
  ∧ (∀ row a c o, (row, a, c, o) ∈ items ↔
       ∃ item, audio_items !! row = Some item ∧ restartable item = true
         ∧ a = file_path item ∧ cover_image_path = Some c
         ∧ get_unique_output_path fuel s output_folder (stem (file_path item)) ".mpg"
           = Some o)
  ∧ StronglySorted lt ((λ it : work_item, it.1.1.1) <$> items)
  ∧ Forall (λ it : work_item, it.2 ∉ s) items.
Proof.
  unfold start_conversion. destruct cover_image_path as [cover|]; [|done].
  destruct (bool_decide _); [done|]. destruct folder_ok; [|done]. simpl.
  destruct (prepare fuel s cover output_folder 0 audio_items) as [[its rest]|] eqn:Hp;
    [|done].
  cbn [mbind option_bind]. intros H.
  assert (its = items ∧ rest = audio_items') as [-> ->].
  { destruct its; [done|]. by injection H as <- <-. }
  clear H. apply prepare_shape in Hp as (-> & Hin & Hsorted & _).
  split_and!; [done| | |done|].
  - rewrite <-list_fmap_compose. apply list_fmap_ext. intros i item _. simpl.
    by destruct (restartable item).
  - intros row a c o. rewrite Hin. split.
    + intros (i & item & -> & Hi & Hr & -> & -> & Ho). by exists item.
    + intros (item & Hi & Hr & -> & [= <-] & Ho). by exists row, item.
  - apply Forall_forall. intros [[[row a] c] o] Hit.
    apply Hin in Hit as (i & item & _ & _ & _ & _ & _ & Ho).
    by apply get_unique_output_path_fresh in Ho.
Qed.

Lemma start_conversion_queues_restartable_witness :
  ∃ items audio_items',
    start_conversion 1 (fs Scenario.quiet) true (Some "/music/cover.png") "/out"
      Scenario.same_stem = Some (Started items audio_items')
    ∧ file_path <$> audio_items' = file_path <$> Scenario.same_stem
    ∧ StronglySorted lt ((λ it : work_item, it.1.1.1) <$> items)
    ∧ Forall (λ it : work_item, it.2 ∉ fs Scenario.quiet) items.
Proof.
  eexists _, _. split; [vm_compute; reflexivity|].
  edestruct (start_conversion_queues_restartable 1 (fs Scenario.quiet) true
               (Some "/music/cover.png") "/out" Scenario.same_stem)
    as (_ & Hpaths & _ & Hsorted & Hfresh); [vm_compute; reflexivity|].
  split_and!; [exact Hpaths|exact Hsorted|exact Hfresh].
Defined.

(** X8. With a cover, a table that is not empty and an output folder, the
    start answers "Nada a converter" exactly when no item is Queued, in
    Error or Cancelled; it then has asked for no output path. *)
Theorem nothing_to_convert_iff
    (fuel : nat) (s : gset string) (cover output_folder : string)
    (audio_items : list AudioItem) :
  audio_items ≠ [] →
  start_conversion fuel s true (Some cover) output_folder audio_items
    = Some (NotStarted "Nada a converter")
  ↔ Forall (λ item, restartable item = false) audio_items.
Proof.
  intros Hne. unfold start_conversion.
  destruct (bool_decide_reflect (length audio_items = 0%nat)) as [Hl|_].
  { by destruct audio_items. }
  simpl. split.
  - destruct (prepare fuel s cover output_folder 0 audio_items) as [[its rest]|] eqn:Hp;
      [|done].
    cbn [mbind option_bind]. destruct its; [|done]. intros _.
    by eapply prepare_something.
  - intros H. by rewrite prepare_nothing.
Qed.

Lemma nothing_to_convert_iff_witness :
  start_conversion 0 ∅ true (Some "/music/cover.png") "/out"
    [{| file_path := "/music/a.mp3"; status := STATUS_COMPLETED; progress := inject_Z 1;
        App.output_path := Some "/out/a.mpg"; App.error_message := None |}]
    = Some (NotStarted "Nada a converter")
  ↔ Forall (λ item, restartable item = false)
      [{| file_path := "/music/a.mp3"; status := STATUS_COMPLETED; progress := inject_Z 1;
          App.output_path := Some "/out/a.mpg"; App.error_message := None |}].
Proof.
  apply (nothing_to_convert_iff 0 ∅ "/music/cover.png" "/out"
           [{| file_path := "/music/a.mp3"; status := STATUS_COMPLETED;
               progress := inject_Z 1;
               App.output_path := Some "/out/a.mpg"; App.error_message := None |}]).
  discriminate.
Defined.

(** * More on the worker and the handlers *)

Section Worker.

Context (sys : platform) (oracle : nat → job_env).

Lemma run_items_jobs (items : list work_item) (w : world) :
  (∀ item, item ∈ items → probe_caught (oracle item.1.1.1) = true) →
  ∃ w' segments,
    run_items sys oracle items w = (w', concat segments, true)
    ∧ Forall2 job_events items segments.
Proof.
  revert w. induction items as [|[[[row a] c] o] items IH]; intros w Hc.
  { exists w, []. split; [done|]. constructor. }
  destruct (run_item_reports sys oracle row a c o w) as (w1 & evs1 & Hrun & Hcase).
  { apply (Hc (row, a, c, o)). by left. }
  destruct (IH w1) as (w2 & segments & Hrest & Hall).
  { intros item Hin. apply Hc. by right. }
  exists w2, (evs1 :: segments). split.
  { cbn [run_items concat]. by rewrite Hrun, Hrest. }
  constructor; [|done].
  destruct Hcase as [(_ & ->)|(w1' & result & w2' & t & cc & _ & _ & _ & -> & _)].
  - by left.
  - right. by exists t, cc, result.
Qed.

Lemma job_events_rows (item : work_item) (evs : list event) :
  job_events item evs → evs ≠ [] ∧ Forall (λ e, row_of e = Some item.1.1.1) evs.
Proof.
  intros [->|(t & cancelled & result & ->)]; (split; [done|]).
  - by repeat constructor.
  - constructor; [done|]. apply Forall_app. split.
    + apply Forall_fmap, Forall_true. by intros [].
    + unfold finished. destruct cancelled; [|destruct (success result)];
        by repeat constructor.
Qed.

Lemma statuses_relay_of (row r : nat) (t : list action) :
  statuses row (relay r <$> t) = [].
Proof. induction t as [|a t IH]; [done|]. by destruct a. Qed.

Lemma statuses_other (row : nat) (evs : list event) :
  Forall (λ e, row_of e ≠ Some row) evs → statuses row evs = [].
Proof.
  induction 1 as [|e evs He _ IH]; [done|].
  destruct e as [[r p|r st|r ok out err|]|r a]; try exact IH.
  unfold statuses in *. simpl in *. destruct (decide (r = row)) as [->|]; done.
Qed.

(** The statuses a job emits for its row end in a terminal one; for the
    other rows it emits none. *)
Lemma job_events_statuses (item : work_item) (evs : list event) (row : nat) :
  job_events item evs →
  if decide (item.1.1.1 = row)
  then ∃ st, last (statuses row evs) = Some st ∧ terminal st
  else statuses row evs = [].
Proof.
  intros Hjob. destruct (decide (item.1.1.1 = row)) as [<-|Hne].
  - destruct Hjob as [->|(t & cancelled & result & ->)].
    + exists STATUS_CANCELLED. unfold skipped. rewrite statuses_status.
      split; [done|]. by right; right.
    + change (Emit ?e :: ?l ++ ?k) with ([Emit e] ++ l ++ k).
      rewrite !statuses_app, statuses_status, statuses_relay, statuses_finished.
      eexists. split; [done|]. unfold terminal.
      destruct cancelled; [|destruct (success result)]; tauto.
  - apply statuses_other. apply job_events_rows in Hjob as [_ Hall].
    eapply Forall_impl; [exact Hall|]. intros e ->. congruence.
Qed.

Lemma jobs_statuses (items : list work_item) (segments : list (list event)) (row : nat) :
  Forall2 job_events items segments →
  row ∈ (λ it : work_item, it.1.1.1) <$> items →
  ∃ st, last (statuses row (concat segments)) = Some st ∧ terminal st.
Proof.
  induction 1 as [|item seg items segments Hjob Htail IH]; [by intros ?%elem_of_nil|].
  rewrite fmap_cons, elem_of_cons. cbn [concat]. rewrite statuses_app. intros Hin.
  apply (job_events_statuses _ _ row) in Hjob.
  destruct (decide (row ∈ (λ it : work_item, it.1.1.1) <$> items)) as [Hrest|Hrest].
  - destruct (IH Hrest) as (st & Hlast & Hst). exists st. split; [|done].
    destruct (statuses row (concat segments)) as [|x l] eqn:E using rev_ind; [done|].
    by rewrite app_assoc, last_snoc in *.
  - destruct Hin as [->|]; [|done]. rewrite decide_True in Hjob by done.
    destruct Hjob as (st & Hlast & Hst). exists st. split; [|done].
    assert (statuses item.1.1.1 (concat segments) = []) as ->; [|by rewrite app_nil_r].
    clear -Htail Hrest. induction Htail as [|it sg its sgs Hj _ IH]; [done|].
    rewrite fmap_cons, not_elem_of_cons in Hrest. destruct Hrest as [Hne Hrest].
    cbn [concat]. rewrite statuses_app, (IH Hrest), app_nil_r.
    apply (job_events_statuses _ _ item.1.1.1) in Hj.
    by rewrite decide_False in Hj by done.
Qed.

Lemma run_items_silent_end (items : list work_item) (w : world) :
  Emit all_completed ∉ (run_items sys oracle items w).1.2.
Proof.
  revert w. induction items as [|[[[row a] c] o] items IH]; intros w.
  { by intros ?%elem_of_nil. }
  cbn [run_items].
  destruct (run_item sys oracle (row, a, c, o) w) as [[w1 evs1] alive] eqn:Hrun.
  assert (Emit all_completed ∉ evs1) as H1.
  { apply run_item_inv in Hrun
      as [(_ & -> & _)|(w1' & r & w2 & t & _ & _ & Hr)].
    - by intros [=]%list_elem_of_singleton.
    - assert (Emit all_completed ∉ relay row <$> t) as Ht.
      { intros (a' & Ha & _)%list_elem_of_fmap. by destruct a'. }
      destruct r as [result|e].
      + destruct Hr as (cc & _ & _ & ->).
        rewrite not_elem_of_cons, not_elem_of_app. split_and!; [done..|].
        unfold finished. destruct cc; [|destruct (success result)];
          rewrite !not_elem_of_cons; split_and!; try done; by intros ?%elem_of_nil.
      + destruct Hr as (_ & _ & ->). rewrite not_elem_of_cons. done. }
  destruct alive; [|done].
  specialize (IH w1).
  destruct (run_items sys oracle items w1) as [[w2 evs2] alive'].
  simpl in *. rewrite not_elem_of_app. done.
Qed.

End Worker.

(** * The handlers *)

Lemma deliver_other (audio_items : list AudioItem) (e : event) (i : nat) :
  row_of e ≠ Some i → deliver audio_items e !! i = audio_items !! i.
Proof.
  destruct e as [[r p|r st|r ok out err|]|r a]; simpl; intros Hne; try done.
  - unfold on_progress_updated. destruct (audio_items !! r); [|done].
    apply list_lookup_insert_ne. congruence.
  - unfold on_status_updated. destruct (audio_items !! r); [|done].
    apply list_lookup_insert_ne. congruence.
  - unfold on_conversion_completed. destruct (audio_items !! r); [|done].
    destruct ok; apply list_lookup_insert_ne; congruence.
Qed.

Lemma deliver_file_paths (audio_items : list AudioItem) (e : event) :
  file_path <$> deliver audio_items e = file_path <$> audio_items.
Proof.
  destruct e as [[r p|r st|r ok out err|]|r a]; simpl; try done.
  - unfold on_progress_updated. destruct (audio_items !! r) as [item|] eqn:E; [|done].
    rewrite list_fmap_insert. simpl. apply list_insert_id.
    by rewrite list_lookup_fmap, E.
  - unfold on_status_updated. destruct (audio_items !! r) as [item|] eqn:E; [|done].
    rewrite list_fmap_insert. simpl. apply list_insert_id.
    by rewrite list_lookup_fmap, E.
  - unfold on_conversion_completed.
    destruct (audio_items !! r) as [item|] eqn:E; [|done].
    destruct ok; rewrite list_fmap_insert; simpl; apply list_insert_id;
      by rewrite list_lookup_fmap, E.
Qed.

Lemma deliver_out_of_range (audio_items : list AudioItem) (e : event) :
  (∀ row, row_of e = Some row → (length audio_items ≤ row)%nat) →
  deliver audio_items e = audio_items.
Proof.
  destruct e as [[r p|r st|r ok out err|]|r a]; simpl; intros Hr; try done.
  - unfold on_progress_updated. by rewrite lookup_ge_None_2 by by apply Hr.
  - unfold on_status_updated. by rewrite lookup_ge_None_2 by by apply Hr.
  - unfold on_conversion_completed. by rewrite lookup_ge_None_2 by by apply Hr.
Qed.

Lemma foldl_deliver_file_paths (audio_items : list AudioItem) (evs : list event) :
  file_path <$> foldl deliver audio_items evs = file_path <$> audio_items.
Proof.
  revert audio_items. induction evs as [|e evs IH]; intros audio_items; [done|].
  simpl. by rewrite IH, deliver_file_paths.
Qed.

Lemma foldl_deliver_other (audio_items : list AudioItem) (evs : list event) (i : nat) :
  Forall (λ e, row_of e ≠ Some i) evs →
  foldl deliver audio_items evs !! i = audio_items !! i.
Proof.
  intros Hall. revert audio_items.
  induction Hall as [|e evs He _ IH]; intros audio_items; [done|].
  simpl. by rewrite IH, deliver_other.
Qed.

(** X9. Whatever signals arrive, in whatever order, the handlers keep the
    table in shape: the number of items and the file of every item stay as
    they are, a row that no signal names keeps its item, and a signal for a
    row that is not in the table changes nothing. *)
Theorem handlers_keep_the_table (audio_items : list AudioItem) (evs : list event) :
  length (foldl deliver audio_items evs) = length audio_items
  ∧ file_path <$> foldl deliver audio_items evs = file_path <$> audio_items
  ∧ (∀ i, Forall (λ e, row_of e ≠ Some i) evs →
          foldl deliver audio_items evs !! i = audio_items !! i)
  ∧ (Forall (λ e, ∀ row, row_of e = Some row → (length audio_items ≤ row)%nat) evs →
     foldl deliver audio_items evs = audio_items).
Proof.
  pose proof (foldl_deliver_file_paths audio_items evs) as Hp.
  split_and!; [|done| |].
  - apply (f_equal length) in Hp. by rewrite !length_fmap in Hp.
  - intros i Hall. by apply foldl_deliver_other.
  - clear Hp. revert audio_items. induction evs as [|e evs IH]; intros audio_items Hall;
      [done|].
    apply Forall_cons in Hall as [He Hall]. simpl.
    rewrite deliver_out_of_range by done. by apply IH.
Qed.

Lemma handlers_keep_the_table_witness :
  length (foldl deliver Scenario.same_stem
            [Emit (status_updated 1 STATUS_ERROR); Emit (progress_updated 7 (inject_Z 1))])
  = 2%nat
  ∧ foldl deliver Scenario.same_stem
      [Emit (status_updated 1 STATUS_ERROR); Emit (progress_updated 7 (inject_Z 1))]
    !! 0%nat = Scenario.same_stem !! 0%nat
  ∧ foldl deliver Scenario.same_stem
      [Emit (status_updated 5 STATUS_ERROR); Emit (progress_updated 7 (inject_Z 1))]
    = Scenario.same_stem.
Proof.
  split_and!.
  - apply (handlers_keep_the_table Scenario.same_stem
             [Emit (status_updated 1 STATUS_ERROR); Emit (progress_updated 7 (inject_Z 1))]).
  - apply (handlers_keep_the_table Scenario.same_stem
             [Emit (status_updated 1 STATUS_ERROR); Emit (progress_updated 7 (inject_Z 1))]).
    repeat constructor; discriminate.
  - apply (handlers_keep_the_table Scenario.same_stem
             [Emit (status_updated 5 STATUS_ERROR); Emit (progress_updated 7 (inject_Z 1))]).
    repeat constructor; intros row [= <-]; vm_compute; lia.
Defined.

(** * The run of a batch *)






Import Config.

(** * The preferences *)

(** X13. The dictionary form of the preferences loses nothing:
    [from_dict] gives back the configuration [to_dict] was made from, and
    keys that are not fields of the class are ignored. *)
Theorem from_dict_to_dict (self : AppConfig) (other : gmap string json) :
  from_dict (to_dict self ∪ other) = self.
Proof.
  destruct self as [f1 f2 f3 f4 f5 f6]. unfold from_dict, to_dict, get. simpl.
  f_equal; by rewrite lookup_union_l'.
Qed.

(** X14. The defaults that [from_dict] passes to [data.get] are those of
    the class: completing a dictionary with the entries of a fresh
    [AppConfig()] does not change what [from_dict] makes of it, and the
    empty dictionary gives [AppConfig()] itself. *)
Theorem from_dict_defaults (data : gmap string json) :
  from_dict (data ∪ to_dict new) = from_dict data ∧ from_dict ∅ = new.
Proof.
  split; [|done].
  unfold from_dict, get. f_equal; rewrite lookup_union;
    match goal with |- context [data !! ?k] => destruct (data !! k) end; done.
Qed.

(** * Removing rows *)

Section Without.

Context {A : Type}.
Implicit Types (l : list A) (rows : list nat).

Lemma without_below rows i l : Forall (λ r, r < i)%nat rows → without rows i l = l.
Proof.
  revert i. induction l as [|x l IH]; intros i Hall; [done|]. cbn [without].
  rewrite decide_False.
  - f_equal. apply IH. eapply Forall_impl; [exact Hall|]. intros r Hr. simpl in *. lia.
  - intros Hin. rewrite Forall_forall in Hall. specialize (Hall _ Hin). simpl in Hall. lia.
Qed.

Lemma without_ext rows rows' i l :
  (∀ r, r ∈ rows ↔ r ∈ rows') → without rows i l = without rows' i l.
Proof.
  intros Hext. revert i. induction l as [|x l IH]; intros i; [done|]. cbn [without].
  rewrite IH. destruct (decide (i ∈ rows)) as [Hin|Hin].
  - by rewrite decide_True by by apply Hext.
  - by rewrite decide_False by by rewrite <-Hext.
Qed.

(** Deleting at a position beyond the rows still to go does not move
    them. *)
Lemma without_delete rows i r l :
  Forall (λ x, x < i + r)%nat rows →
  without rows i (delete r l) = without ((i + r)%nat :: rows) i l.
Proof.
  revert i r. induction l as [|x l IH]; intros i r Hall; [by destruct r|].
  destruct r as [|r].
  - change (delete 0%nat (x :: l)) with l. cbn [without].
    rewrite decide_True by (rewrite Nat.add_0_r; by left).
    rewrite !without_below; [done| |].
    + constructor; [lia|]. eapply Forall_impl; [exact Hall|]. intros y Hy. simpl in *. lia.
    + eapply Forall_impl; [exact Hall|]. intros y Hy. simpl in *. lia.
  - change (delete (S r) (x :: l)) with (x :: delete r l). cbn [without].
    rewrite (IH (S i) r) by (eapply Forall_impl; [exact Hall|]; intros y Hy; simpl in *; lia).
    replace (S i + r)%nat with (i + S r)%nat by lia.
    destruct (decide (i ∈ rows)) as [Hin|Hin].
    + by rewrite decide_True by by right.
    + rewrite decide_False; [done|].
      rewrite not_elem_of_cons. split; [lia|done].
Qed.

Lemma elem_of_without rows i l x :
  x ∈ without rows i l ↔ ∃ j, ((i + j)%nat ∉ rows) ∧ l !! j = Some x.
Proof.
  revert i. induction l as [|y l IH]; intros i; cbn [without].
  { split; [by intros ?%elem_of_nil|]. by intros (j & _ & ?). }
  assert ((∃ j, ((i + j)%nat ∉ rows) ∧ (y :: l) !! j = Some x)
          ↔ ((i ∉ rows) ∧ y = x) ∨ ∃ j, ((S i + j)%nat ∉ rows) ∧ l !! j = Some x) as ->.
  { split.
    - intros ([|j] & Hj & Hx).
      + left. rewrite Nat.add_0_r in Hj. by injection Hx as ->.
      + right. exists j. by replace (S i + j)%nat with (i + S j)%nat by lia.
    - intros [[Hi ->]|(j & Hj & Hx)].
      + exists 0%nat. by rewrite Nat.add_0_r.
      + exists (S j). by replace (i + S j)%nat with (S i + j)%nat by lia. }
  destruct (decide (i ∈ rows)) as [Hin|Hin].
  - rewrite IH. split; [by right|]. by intros [[? _]|?].
  - rewrite elem_of_cons, IH. split.
    + intros [->|?]; [by left|by right].
    + intros [[_ ->]|?]; [by left|by right].
Qed.

(** The rows from the largest to the smallest: every deletion leaves the
    rows still to go where they were. *)
Lemma foldl_del rows l :
  StronglySorted (flip le) rows → NoDup rows →
  Forall (λ r, r < length l)%nat rows →
  foldl (λ items row, items ← items; del row items) (Some l) rows
  = Some (without rows 0 l).
Proof.
  intros Hsorted. revert l. induction Hsorted as [|r rows _ IH Hle]; intros l Hnd Hlt.
  { by rewrite without_below. }
  apply NoDup_cons in Hnd as [Hr Hnd]. apply Forall_cons in Hlt as [Hrl Hlt].
  assert (Forall (λ x, x < r)%nat rows) as Hbelow.
  { apply Forall_forall. intros x Hx. rewrite Forall_forall in Hle.
    specialize (Hle x Hx). unfold flip in Hle.
    assert (x ≠ r) by (intros ->; done). lia. }
  cbn [foldl]. cbn [mbind option_bind]. unfold del at 2.
  rewrite decide_True by done.
  rewrite IH; [|done|].
  - f_equal. by rewrite (without_delete rows 0 r l).
  - rewrite length_delete by by apply lookup_lt_is_Some.
    eapply Forall_impl; [exact Hbelow|]. intros x Hx. simpl in *. lia.
Qed.

End Without.

Lemma sorted_reverse_spec (rows : list nat) :
  StronglySorted (flip le) (sorted_reverse rows) ∧ NoDup (sorted_reverse rows)
  ∧ ∀ r, r ∈ sorted_reverse rows ↔ r ∈ rows.
Proof.
  unfold sorted_reverse.
  assert (reverse (merge_sort le (remove_dups rows)) ≡ₚ remove_dups rows) as Hperm.
  { by rewrite reverse_Permutation, merge_sort_Permutation. }
  split_and!.
  - assert (Transitive (flip le)) as Htrans by (intros x y z; unfold flip; lia).
    assert (Total le) as Htotal by (intros x y; lia).
    apply (@sorting.Sorted_StronglySorted _ (flip le) Htrans).
    apply Sorted_reverse, (@Sorted_merge_sort _ le _ Htotal).
  - rewrite Hperm. apply NoDup_remove_dups.
  - intros r. by rewrite Hperm, elem_of_remove_dups.
Qed.

(** X15. [remove_selected] removes the items of the selected rows and no
    other: what is left are the items at the rows that are not selected,
    in their order.  (The rows are deleted from the largest to the
    smallest, so that no deletion moves a row that is still to go.)  During
    a conversion the list stays as it is. *)
Theorem remove_selected_removes_selection
    (selected : list nat) (audio_items : list AudioItem) :
  Forall (λ row, row < length audio_items)%nat selected →
  remove_selected false selected audio_items = Some (without selected 0 audio_items)
  ∧ (∀ item, item ∈ without selected 0 audio_items ↔
       ∃ row, (row ∉ selected) ∧ audio_items !! row = Some item)
  ∧ remove_selected true selected audio_items = Some audio_items.
Proof.
  intros Hrows. destruct (sorted_reverse_spec selected) as (Hsorted & Hnd & Hin).
  split_and!; [|intros item; apply elem_of_without|done].
  unfold remove_selected. rewrite foldl_del; [|done..|].
  - f_equal. by apply without_ext.
  - apply Forall_forall. intros r Hr. rewrite Forall_forall in Hrows.
    by apply Hrows, Hin.
Qed.

Lemma remove_selected_removes_selection_witness :
  remove_selected false [1; 0; 1]%nat
    [Scenario.queued "/music/a.mp3"; Scenario.queued "/music/b.mp3";
     Scenario.queued "/music/c.mp3"]
  = Some [Scenario.queued "/music/c.mp3"].
Proof.
  edestruct (remove_selected_removes_selection [1; 0; 1]%nat
               [Scenario.queued "/music/a.mp3"; Scenario.queued "/music/b.mp3";
                Scenario.queued "/music/c.mp3"]) as (H & _).
  { repeat constructor. }
  exact H.
Defined.

(** * Durations as text *)

Lemma Qfloor_Qdiv (x : Q) (p : positive) :
  Qfloor (Qdiv x (inject_Z (Zpos p))) = Qfloor x / Zpos p.
Proof.
  destruct x as [a b]. unfold Qdiv, Qmult, Qinv, Qfloor, inject_Z. simpl.
  rewrite Z.mul_1_r, Pos2Z.inj_mul. symmetry. apply Z.div_div; lia.
Qed.

Lemma int_of_float_Z (z : Z) : Py.int_of_float (inject_Z z) = z.
Proof. unfold Py.int_of_float, inject_Z. simpl. apply Z.quot_1_r. Qed.

Lemma int_of_float_floordiv (x : Q) (p : positive) :
  Py.int_of_float (Py.floordiv x (inject_Z (Zpos p))) = Qfloor x / Zpos p.
Proof. unfold Py.floordiv. by rewrite int_of_float_Z, Qfloor_Qdiv. Qed.

Lemma fmod_parts (x : Q) (p : positive) :
  Qnum (Py.fmod x (inject_Z (Zpos p)))
  = Qnum x - Zpos p * (Qfloor x / Zpos p) * Zpos (Qden x)
  ∧ Qden (Py.fmod x (inject_Z (Zpos p))) = Qden x.
Proof.
  unfold Py.fmod, Py.floordiv. rewrite (Qfloor_Qdiv x p).
  destruct x as [a b]. unfold Qminus, Qplus, Qopp, Qmult, inject_Z. simpl.
  split; [lia|]. apply Pos.mul_1_r.
Qed.

Lemma fmod_numerator (x : Q) (p : positive) :
  0 ≤ Qnum x - Zpos p * (Qfloor x / Zpos p) * Zpos (Qden x).
Proof.
  destruct x as [a b]. unfold Qfloor. simpl.
  pose proof (Z.mul_div_le (a / Zpos b) (Zpos p) ltac:(lia)).
  pose proof (Z.mul_div_le a (Zpos b) ltac:(lia)). nia.
Qed.

Lemma Qfloor_fmod (x : Q) (p : positive) :
  Qfloor (Py.fmod x (inject_Z (Zpos p))) = Qfloor x mod Zpos p.
Proof.
  destruct (fmod_parts x p) as [Hn Hd].
  destruct (Py.fmod x (inject_Z (Zpos p))) as [n d]. simpl in *. subst n d.
  destruct x as [a b]. unfold Qfloor. simpl.
  replace (a - Zpos p * (a / Zpos b / Zpos p) * Zpos b)
    with (a + - (Zpos p * (a / Zpos b / Zpos p)) * Zpos b) by lia.
  rewrite Z.div_add by lia. rewrite Z.mod_eq by lia. lia.
Qed.

Lemma int_of_float_fmod (x : Q) (p : positive) :
  Py.int_of_float (Py.fmod x (inject_Z (Zpos p))) = Qfloor x mod Zpos p.
Proof.
  rewrite <-Qfloor_fmod. pose proof (fmod_numerator x p) as Hpos.
  destruct (fmod_parts x p) as [Hn Hd].
  destruct (Py.fmod x (inject_Z (Zpos p))) as [n d]. simpl in Hn, Hd. subst n d.
  unfold Py.int_of_float. cbn [Qnum Qden Qfloor].
  apply Z.quot_div_nonneg; [exact Hpos|lia].
Qed.



(** * Cleaning the name of an output *)

Lemma string_app_assoc (s t u : string) : (s +:+ t) +:+ u = s +:+ (t +:+ u).
Proof.
  induction s as [|a s IH]; [done|].
  change (String a ((s +:+ t) +:+ u) = String a (s +:+ (t +:+ u))). by rewrite IH.
Qed.

Lemma string_app_nil_r (s : string) : s +:+ "" = s.
Proof.
  induction s as [|a s IH]; [done|]. change (String a (s +:+ "") = String a s).
  by rewrite IH.
Qed.

Lemma rev_app_app (s acc : string) : String.rev_app s acc = String.rev s +:+ acc.
Proof.
  unfold String.rev. revert acc. induction s as [|a s IH]; intros acc; [done|].
  cbn [String.rev_app]. rewrite (IH (String a acc)), (IH (String a "")).
  by rewrite string_app_assoc.
Qed.

Lemma rev_cons (a : ascii) (s : string) :
  String.rev (String a s) = String.rev s +:+ String a "".
Proof. unfold String.rev at 1. cbn [String.rev_app]. apply rev_app_app. Qed.

Lemma rev_app (s t : string) : String.rev (s +:+ t) = String.rev t +:+ String.rev s.
Proof.
  induction s as [|a s IH]; [by rewrite string_app_nil_r|].
  change (String.rev (String a (s +:+ t)) = String.rev t +:+ String.rev (String a s)).
  by rewrite !rev_cons, IH, string_app_assoc.
Qed.

Lemma rev_involutive (s : string) : String.rev (String.rev s) = s.
Proof.
  induction s as [|a s IH]; [done|]. rewrite rev_cons, rev_app, IH. done.
Qed.

Lemma lstrip_split (s : string) : ∃ p, s = p +:+ Py.lstrip s.
Proof.
  induction s as [|a s [p IH]]; [by exists ""|]. cbn [Py.lstrip].
  destruct (Py.isspace a).
  - exists (String a p). change (String a s = String a (p +:+ Py.lstrip s)). by rewrite <-IH.
  - by exists "".
Qed.

Lemma lstrip_length (s : string) : (String.length (Py.lstrip s) ≤ String.length s)%nat.
Proof.
  induction s as [|a s IH]; [done|]. cbn [Py.lstrip].
  destruct (Py.isspace a); simpl; lia.
Qed.

(** A string keeps its head when [lstrip] leaves it as it is. *)
Lemma lstrip_fixed (c : ascii) (s : string) :
  Py.lstrip (String c s) = String c s ↔ Py.isspace c = false.
Proof.
  cbn [Py.lstrip]. destruct (Py.isspace c); [|done]. split; [|done].
  intros H. pose proof (lstrip_length s) as Hl. rewrite H in Hl. simpl in Hl. lia.
Qed.

Lemma lstrip_idemp (s : string) : Py.lstrip (Py.lstrip s) = Py.lstrip s.
Proof.
  induction s as [|a s IH]; [done|]. cbn [Py.lstrip].
  destruct (Py.isspace a) eqn:E; [done|]. by apply lstrip_fixed.
Qed.

Lemma rstrip_idemp (s : string) : Py.rstrip (Py.rstrip s) = Py.rstrip s.
Proof. unfold Py.rstrip. by rewrite rev_involutive, lstrip_idemp. Qed.

(** Taking white space off the end leaves a clean head clean. *)
Lemma lstrip_rstrip (s : string) :
  Py.lstrip s = s → Py.lstrip (Py.rstrip s) = Py.rstrip s.
Proof.
  intros Hs. destruct (lstrip_split (String.rev s)) as [p Hp].
  apply (f_equal String.rev) in Hp. rewrite rev_involutive, rev_app in Hp.
  fold (Py.rstrip s) in Hp.
  destruct (Py.rstrip s) as [|c u]; [done|].
  apply lstrip_fixed. rewrite Hp in Hs.
  change (Py.lstrip (String c (u +:+ String.rev p)) = String c (u +:+ String.rev p)) in Hs.
  by apply lstrip_fixed in Hs.
Qed.

Lemma strip_idemp (s : string) : Py.strip (Py.strip s) = Py.strip s.
Proof.
  unfold Py.strip. rewrite lstrip_rstrip by apply lstrip_idemp. apply rstrip_idemp.
Qed.

Lemma clean_extension_idemp (extension : string) :
  clean_extension (clean_extension extension) = clean_extension extension.
Proof.
  unfold clean_extension. destruct (Py.startswith "." extension) eqn:E; cbn [negb].
  - by rewrite E.
  - done.
Qed.

(** X17. The cleaning that [get_unique_output_path] applies to its
    arguments is idempotent: a base name given with or without white space
    around it, and an extension given with or without its dot, name the
    same output path. *)
Theorem get_unique_output_path_cleans
    (fuel : nat) (s : gset string) (output_folder base_name extension : string) :
  get_unique_output_path fuel s output_folder (Py.strip base_name)
    (clean_extension extension)
  = get_unique_output_path fuel s output_folder base_name extension.
Proof.
  unfold get_unique_output_path. by rewrite strip_idemp, clean_extension_idemp.
Qed.
